(** * Audio_timestamp: the ffmpeg filter graphs and the download route

    A shallow embedding of the four Express servers of the repository:

    - [Timestamp]: src/unnamed/part_000, lines 1-163 and 164-388
      (metadata-driven delay and trim, mix cut to the main duration; the
      second copy adds the trimming download route, module [Download]);
    - [Fade]: src/unnamed/part_000, lines 389-575 (trim, volume, fade,
      delay, one amix);
    - [Submix]: src/beckand/index.js (as [Fade], with a background submix);
    - [Stinger]: src/unnamed/part_001 (random placement of 4 second clips).

    JavaScript numbers are modelled by the rationals [Q]: comparisons,
    [Math.min] and [||] are exact on doubles.  In the modules of the servers
    sums, differences and products are taken without rounding, and a
    metadata field is a JSON number or is absent; module [Doubles] has the
    constants of the two metadata loops with every operation rounded to the
    nearest double, and module [Coercion] has the volume of a metadata field
    that holds any JSON value.  Each string pushed on [filterComplex] is
    modelled by the filter chains it denotes, with the numbers kept as
    numbers.  [path.join], [JSON.parse], [ffprobe], the outcome of ffmpeg and
    [Math.random] are parameters of the definitions that call them. *)

From Stdlib Require Import QArith Qminmax Qround Qpower Lqa.
From stdpp Require Import gmap strings list pretty.

Open Scope Q_scope.

(** ** JavaScript helpers *)

(** [x || d] for [x] a number or [undefined] ([None]): [undefined], [NaN]
    and zero are falsy. *)
Definition js_or (x : option Q) (d : Q) : Q :=
  match x with
  | Some q => if Qeq_bool q 0 then d else q
  | None => d
  end.

Infix "|?" := js_or (at level 45, left associativity).

(** [parseFloat(x)] for [x] a number or [undefined]: a number is printed and
    read back unchanged, [undefined] gives [NaN] ([None]). *)
Definition parseFloat (x : option Q) : option Q := x.

(** [Math.floor]. *)
Definition Math_floor (x : Q) : Q := inject_Z (Qfloor x).

(** [array.forEach((x, index) => body)], the body acting on the state [St] of
    the variables it mutates. *)
Fixpoint forEach_from {A St : Type} (body : A -> nat -> St -> St)
    (l : list A) (index : nat) (s : St) : St :=
  match l with
  | [] => s
  | x :: l' => forEach_from body l' (S index) (body x index s)
  end.

Definition forEach {A St : Type} (l : list A) (body : A -> nat -> St -> St) (s : St) : St :=
  forEach_from body l 0%nat s.

(** ** Data model *)

(** A file object of multer. *)
Record File := { originalname : string; path : string }.

(** One entry of [backgroundAudioMetadata]: [{timestamp, duration, volume}],
    every field optional. *)
Module Metadata.
Record t := { timestamp : option Q; duration : option Q; volume : option Q }.
(** [{}] *)
Definition empty : t := {| timestamp := None; duration := None; volume := None |}.
End Metadata.

(** [backgroundAudioMetadata[index] || {}]: an index past the end gives
    [undefined], and a [null] entry ([None]) is falsy as well. *)
Definition entry (backgroundAudioMetadata : list (option Metadata.t)) (index : nat) : Metadata.t :=
  match backgroundAudioMetadata !! index with
  | Some (Some m) => m
  | _ => Metadata.empty
  end.

(** The placement of one clip, as the specification names its parts; each
    server's [resolve] reads them off the constants of its loop body. *)
Record ClipPlacement := {
  sourceIndex : nat;
  startOffsetSeconds : Q;
  gain : Q;
  spanSeconds : Q
}.

(** The audio filters the servers write into their filter strings. *)
Inductive amix_option :=
  | duration_first          (* duration=first *)
  | duration_longest        (* duration=longest *)
  | dropout_transition_0    (* dropout_transition=0 *)
  | normalize_0.            (* normalize=0 *)

Inductive filter :=
  | Volume (v : Q)                              (* volume=v *)
  | AtrimDuration (d : Q)                       (* atrim=duration=d *)
  | Atrim (start stop : Q)                      (* atrim=start:stop *)
  | Asetpts                                     (* asetpts=PTS-STARTPTS *)
  | Adelay (delays : list Q)                    (* adelay=d|d, one per channel *)
  | AfadeOut (st d : Q)                         (* afade=t=out:st=st:d=d *)
  | Amix (inputs : nat) (opt : option amix_option)  (* amix=inputs=n:opt *)
  | Aformat.   (* aformat=sample_fmts=fltp:sample_rates=44100:channel_layouts=stereo *)

(** [[in1][in2]f1,f2,...[out]]: one chain of the filter graph. *)
Record chain := { ins : list string; filters : list filter; out : string }.

(** The label [delayed<index + 1>] of the clip at [index]. *)
Definition delayed_label (index : nat) : string := "delayed" +:+ pretty (index + 1)%nat.

(** The stage of the specification's operation chain a filter carries out;
    [asetpts] only resets the timestamps after a trim. *)
Inductive stage := Trim | Gain | FadeOut | Delay | Mix.

Definition stage_of (f : filter) : option stage :=
  match f with
  | Atrim _ _ | AtrimDuration _ => Some Trim
  | Volume _ => Some Gain
  | AfadeOut _ _ => Some FadeOut
  | Adelay _ => Some Delay
  | Amix _ _ => Some Mix
  | Asetpts | Aformat => None
  end.

Definition stages (fs : list filter) : list stage := omap stage_of fs.

(** The fluent-ffmpeg command a server builds and saves. *)
Record command := {
  inputs : list string;
  complexFilter : list chain;
  map_output : string;
  audioCodec : string;
  audioBitrate : string;
  toFormat : string;
  output_duration : option Q;
  save : string
}.

(** What the promise of [processAudio] does once [ffprobe] has called back:
    it rejects with the probe error, or it runs the command (whose [end]
    and [error] events are ffmpeg's). *)
Inductive processing :=
  | Rejected
  | Run (c : command).

(** [command.input(mainAudioPath)] followed by one [input] per clip. *)
Definition add_inputs (mainAudioPath : string) (files : list File) : list string :=
  forEach files (fun file _ acc => acc ++ [path file]) [mainAudioPath].

(** ** part_000, first and second server: delay and trim from the metadata *)
Module Timestamp.

(** [(metadata.timestamp || 0) * 1000] *)
Definition delay (metadata : Metadata.t) : Q :=
  (Metadata.timestamp metadata |? 0) * 1000.

(** [Math.min(metadata.volume || 1, 1)] *)
Definition volume (metadata : Metadata.t) : Q :=
  Qmin (Metadata.volume metadata |? 1) 1.

(** [Math.min(metadata.duration || mainDuration,
              mainDuration - (metadata.timestamp || 0))] *)
Definition duration (mainDuration : Q) (metadata : Metadata.t) : Q :=
  Qmin (Metadata.duration metadata |? mainDuration)
       (mainDuration - (Metadata.timestamp metadata |? 0)).

(** The placement these constants give the clip at [index]: the offset is
    the [metadata.timestamp || 0] of which [delay] is the milliseconds. *)
Definition resolve (mainDuration : Q) (backgroundAudioMetadata : list (option Metadata.t))
    (index : nat) : ClipPlacement :=
  let metadata := entry backgroundAudioMetadata index in
  {| sourceIndex := (index + 1)%nat;
     startOffsetSeconds := Metadata.timestamp metadata |? 0;
     gain := volume metadata;
     spanSeconds := duration mainDuration metadata |}.

(** The chain pushed for the clip at [index]. *)
Definition clip_chain (mainDuration : Q) (backgroundAudioMetadata : list (option Metadata.t))
    (index : nat) : chain :=
  let metadata := entry backgroundAudioMetadata index in
  let inputIndex := (index + 1)%nat in
  let outputLabel := "delayed" +:+ pretty inputIndex in
  {| ins := [pretty inputIndex +:+ ":a"];
     filters := [Volume (volume metadata);
                 AtrimDuration (duration mainDuration metadata);
                 Asetpts;
                 Adelay [delay metadata; delay metadata]];
     out := outputLabel |}.

(** The body of [backgroundAudioFiles.forEach], on [(filterComplex, mixAudio)]. *)
Definition clip_body (mainDuration : Q) (backgroundAudioMetadata : list (option Metadata.t))
    (file : File) (index : nat) (st : list chain * list string) : list chain * list string :=
  let c := clip_chain mainDuration backgroundAudioMetadata index in
  (st.1 ++ [c], st.2 ++ [out c]).

(** The filter graph: the clips, then the mix cut to the main duration. *)
Definition filter_graph (mainDuration : Q) (backgroundAudioFiles : list File)
    (backgroundAudioMetadata : list (option Metadata.t)) : list chain :=
  let '(filterComplex, mixAudio) :=
    forEach backgroundAudioFiles (clip_body mainDuration backgroundAudioMetadata)
            ([], ["0:a"]) in
  filterComplex ++
    [{| ins := mixAudio;
        filters := [Amix (length mixAudio) (Some duration_first);
                    AtrimDuration mainDuration];
        out := "out" |}].

Section WithProbe.
(** [ffmpeg.ffprobe(path, cb)]: [metadata.format.duration], or [None] when
    the callback receives an error. *)
Variable ffprobe : string -> option Q.

Definition processAudio (mainAudioPath : string) (backgroundAudioFiles : list File)
    (backgroundAudioMetadata : list (option Metadata.t)) (outputPath : string) : processing :=
  match ffprobe mainAudioPath with
  | None => Rejected
  | Some mainDuration =>
      Run {| inputs := add_inputs mainAudioPath backgroundAudioFiles;
             complexFilter := filter_graph mainDuration backgroundAudioFiles backgroundAudioMetadata;
             map_output := "out";
             audioCodec := "aac";
             audioBitrate := "128k";
             toFormat := "adts";
             output_duration := Some mainDuration;
             save := outputPath |}
  end.
End WithProbe.

End Timestamp.

(** ** src/beckand/index.js: trim, volume, fade, delay, background submix *)
Module Submix.

(** [parseFloat(bgMetadata.timestamp) || 0] *)
Definition startTime (bgMetadata : Metadata.t) : Q :=
  parseFloat (Metadata.timestamp bgMetadata) |? 0.

(** [Math.min(bgMetadata.volume || 1, 1)] *)
Definition volume (bgMetadata : Metadata.t) : Q :=
  Qmin (Metadata.volume bgMetadata |? 1) 1.

(** [parseFloat(bgMetadata.duration) || (mainDuration - startTime)] *)
Definition specifiedDuration (mainDuration : Q) (bgMetadata : Metadata.t) : Q :=
  parseFloat (Metadata.duration bgMetadata) |? (mainDuration - startTime bgMetadata).

(** [Math.min(startTime + specifiedDuration, mainDuration)] *)
Definition endTime (mainDuration : Q) (bgMetadata : Metadata.t) : Q :=
  Qmin (startTime bgMetadata + specifiedDuration mainDuration bgMetadata) mainDuration.

(** The placement these constants give the clip at [index]. *)
Definition resolve (mainDuration : Q) (backgroundAudioMetadata : list (option Metadata.t))
    (index : nat) : ClipPlacement :=
  let bgMetadata := entry backgroundAudioMetadata index in
  {| sourceIndex := (index + 1)%nat;
     startOffsetSeconds := startTime bgMetadata;
     gain := volume bgMetadata;
     spanSeconds := endTime mainDuration bgMetadata - startTime bgMetadata |}.

(** The first string pushed for the clip at [index] (line 119). *)
Definition trim_chain (mainDuration : Q) (backgroundAudioMetadata : list (option Metadata.t))
    (index : nat) : chain :=
  let bgMetadata := entry backgroundAudioMetadata index in
  let inputIndex := (index + 1)%nat in
  let outputLabel := "bg" +:+ pretty inputIndex in
  {| ins := [pretty inputIndex +:+ ":a"];
     filters := [Atrim (startTime bgMetadata) (endTime mainDuration bgMetadata);
                 Asetpts;
                 Volume (volume bgMetadata);
                 AfadeOut (endTime mainDuration bgMetadata - startTime bgMetadata - 0.5) 0.5];
     out := outputLabel |}.

(** The second string pushed for the clip at [index] (line 120). *)
Definition delay_chain (backgroundAudioMetadata : list (option Metadata.t)) (index : nat) : chain :=
  let bgMetadata := entry backgroundAudioMetadata index in
  let inputIndex := (index + 1)%nat in
  let outputLabel := "bg" +:+ pretty inputIndex in
  {| ins := [outputLabel];
     filters := [Adelay [startTime bgMetadata * 1000; startTime bgMetadata * 1000]];
     out := "delayed" +:+ outputLabel |}.

(** The body of [backgroundAudioFiles.forEach], on
    [(filterComplex, backgroundMixInputs)]. *)
Definition clip_body (mainDuration : Q) (backgroundAudioMetadata : list (option Metadata.t))
    (file : File) (index : nat) (st : list chain * list string) : list chain * list string :=
  (st.1 ++ [trim_chain mainDuration backgroundAudioMetadata index;
            delay_chain backgroundAudioMetadata index],
   st.2 ++ [out (delay_chain backgroundAudioMetadata index)]).

(** The filter graph: the clips, their submix, and the overlay on the main
    track; the main track alone when there is no clip (lines 126-134). *)
Definition filter_graph (mainDuration : Q) (backgroundAudioFiles : list File)
    (backgroundAudioMetadata : list (option Metadata.t)) : list chain :=
  let '(filterComplex, backgroundMixInputs) :=
    forEach backgroundAudioFiles (clip_body mainDuration backgroundAudioMetadata) ([], []) in
  if (0 <? length backgroundMixInputs)%nat then
    filterComplex ++
      [{| ins := backgroundMixInputs;
          filters := [Amix (length backgroundMixInputs) (Some dropout_transition_0)];
          out := "bgmix" |};
       {| ins := ["0:a"]; filters := [Volume 1.0]; out := "main" |};
       {| ins := ["main"; "bgmix"]; filters := [Amix 2 (Some normalize_0)]; out := "out" |}]
  else
    filterComplex ++ [{| ins := ["0:a"]; filters := [Volume 1.0]; out := "out" |}].

Section WithProbe.
Variable ffprobe : string -> option Q.

Definition processAudio (mainAudioPath : string) (backgroundAudioFiles : list File)
    (backgroundAudioMetadata : list (option Metadata.t)) (outputPath : string) : processing :=
  match ffprobe mainAudioPath with
  | None => Rejected
  | Some mainDuration =>
      Run {| inputs := add_inputs mainAudioPath backgroundAudioFiles;
             complexFilter := filter_graph mainDuration backgroundAudioFiles backgroundAudioMetadata;
             map_output := "out";
             audioCodec := "aac";
             audioBitrate := "128k";
             toFormat := "adts";
             output_duration := None;
             save := outputPath |}
  end.
End WithProbe.

End Submix.

(** ** part_000, third server: as index.js, with a single amix *)
Module Fade.

(** Lines 497-518 compute the clip exactly as lines 106-123 of index.js. *)
Definition clip_body := Submix.clip_body.

(** The main track through [volume=1], the clips, then one mix of all
    (lines 493-521). *)
Definition filter_graph (mainDuration : Q) (backgroundAudioFiles : list File)
    (backgroundAudioMetadata : list (option Metadata.t)) : list chain :=
  let mainAudioVolume := 1 in
  let filterComplex := [{| ins := ["0:a"]; filters := [Volume mainAudioVolume]; out := "mainAudio" |}] in
  let mixAudio := <[0%nat := "mainAudio"]> ["0:a"] in
  let '(filterComplex, mixAudio) :=
    forEach backgroundAudioFiles (clip_body mainDuration backgroundAudioMetadata)
            (filterComplex, mixAudio) in
  filterComplex ++
    [{| ins := mixAudio;
        filters := [Amix (length mixAudio) (Some dropout_transition_0); Aformat];
        out := "out" |}].

Section WithProbe.
Variable ffprobe : string -> option Q.

(** [processAudio] of the third server (lines 466-544): no output
    duration is set. *)
Definition processAudio (mainAudioPath : string) (backgroundAudioFiles : list File)
    (backgroundAudioMetadata : list (option Metadata.t)) (outputPath : string) : processing :=
  match ffprobe mainAudioPath with
  | None => Rejected
  | Some mainDuration =>
      Run {| inputs := add_inputs mainAudioPath backgroundAudioFiles;
             complexFilter := filter_graph mainDuration backgroundAudioFiles backgroundAudioMetadata;
             map_output := "out";
             audioCodec := "aac";
             audioBitrate := "128k";
             toFormat := "adts";
             output_duration := None;
             save := outputPath |}
  end.
End WithProbe.

End Fade.

(** ** part_001: 4 second clips at random offsets *)
Module Stinger.

Section WithRandom.
(** [Math.random()]: the engine's generator state is threaded explicitly;
    it is the only seed the server has. *)
Variable rng : Type.
Variable Math_random : rng -> Q * rng.

(** [Math.floor(u * (mainDuration - 4)) * 1000] for the draw [u]. *)
Definition delay (mainDuration u : Q) : Q :=
  Math_floor (u * (mainDuration - 4)) * 1000.

(** The chain pushed for the clip at [index] with the delay drawn for it. *)
Definition clip_chain (delay : Q) (index : nat) : chain :=
  let inputIndex := (index + 1)%nat in
  let outputLabel := "delayed" +:+ pretty inputIndex in
  {| ins := [pretty inputIndex +:+ ":a"];
     filters := [Volume 0.4; AtrimDuration 4; Asetpts; Adelay [delay; delay]];
     out := outputLabel |}.

(** The body of [shortAudioFiles.forEach], on
    [(filterComplex, mixAudio, generator)]. *)
Definition clip_body (mainDuration : Q) (file : string) (index : nat)
    (st : list chain * list string * rng) : list chain * list string * rng :=
  let '(filterComplex, mixAudio, g) := st in
  let '(u, g') := Math_random g in
  let c := clip_chain (delay mainDuration u) index in
  (filterComplex ++ [c], mixAudio ++ [out c], g').

(** The filter graph and the generator state left behind (lines 116-131). *)
Definition filter_graph (seed : rng) (mainDuration : Q) (shortAudioFiles : list string)
    : list chain * rng :=
  let '(filterComplex, mixAudio, g) :=
    forEach shortAudioFiles (clip_body mainDuration) ([], ["0:a"], seed) in
  (filterComplex ++
     [{| ins := mixAudio;
         filters := [Amix (length mixAudio) (Some duration_longest)];
         out := "out" |}],
   g).
End WithRandom.

(** *** The promise of [processAudio] and the route of part_001 *)

(** How a promise is settled; an error is kept by its message. *)
Inductive settlement :=
  | Resolved
  | RejectedWith (message : string).

(** [reject(new Error(message))] and [resolve()]: only the first call
    settles the promise. *)
Definition reject (message : string) (p : option settlement) : option settlement :=
  match p with
  | None => Some (RejectedWith message)
  | Some _ => p
  end.

Definition resolve (p : option settlement) : option settlement :=
  match p with
  | None => Some Resolved
  | Some _ => p
  end.

(** What the server does not decide: the clock, the probe (an error message
    or the format's duration) and how ffmpeg ends ([None] for the [end]
    event, the error's message for [error]). *)
Record env := {
  now : N;
  ffprobe : string -> string + Q;
  ffmpeg : command -> option string
}.

(** What a call of [processAudio] leaves: the promise, the command it
    started if any, the files, and the generator state. *)
Record processed (rng : Type) := {
  promise : option settlement;
  spawned : option command;
  files_after : gset string;
  rng_after : rng
}.
Arguments promise {rng} _.
Arguments spawned {rng} _.
Arguments files_after {rng} _.
Arguments rng_after {rng} _.

Section WithGenerator.
Variable rng : Type.
Variable Math_random : rng -> Q * rng.

(** The loop of lines 83-88: [return] leaves the callback only, so the
    loop goes through every file. *)
Definition check_short_files (fs : gset string) (shortAudioFiles : list string)
    (p : option settlement) : option settlement :=
  forEach shortAudioFiles
    (fun file _ p =>
       if negb (bool_decide (file ∈ fs))
       then reject ("Short audio file not found: " +:+ file) p
       else p)
    p.

(** [command.input(mainAudioFile)] followed by one [input] per clip
    (lines 90-98). *)
Definition command_inputs (mainAudioFile : string) (shortAudioFiles : list string) : list string :=
  forEach shortAudioFiles (fun file _ acc => acc ++ [file]) [mainAudioFile].

(** [processAudio(mainAudioFile, shortAudioFiles, outputPath)], lines 75-154.
    On [end] ffmpeg has written the output file. *)
Definition processAudio (e : env) (fs : gset string) (seed : rng)
    (mainAudioFile : string) (shortAudioFiles : list string) (outputPath : string)
    : processed rng :=
  if negb (bool_decide (mainAudioFile ∈ fs)) then
    {| promise := reject ("Main audio file not found: " +:+ mainAudioFile) None;
       spawned := None; files_after := fs; rng_after := seed |}
  else
    let p := check_short_files fs shortAudioFiles None in
    match ffprobe e mainAudioFile with
    | inl err =>
        {| promise := reject err p; spawned := None; files_after := fs; rng_after := seed |}
    | inr mainDuration =>
        let '(filterComplex, g) :=
          filter_graph rng Math_random seed mainDuration shortAudioFiles in
        let c := {| inputs := command_inputs mainAudioFile shortAudioFiles;
                    complexFilter := filterComplex;
                    map_output := "out";
                    audioCodec := "aac";
                    audioBitrate := "128k";
                    toFormat := "adts";
                    output_duration := None;
                    save := outputPath |} in
        match ffmpeg e c with
        | None =>
            {| promise := resolve p; spawned := Some c;
               files_after := {[outputPath]} ∪ fs; rng_after := g |}
        | Some err =>
            {| promise := reject err p; spawned := Some c; files_after := fs; rng_after := g |}
        end
    end.

(** [req.files.mainAudio] and [req.files.shortAudios]. *)
Record request := {
  mainAudio : option File;
  shortAudios : option (list File)
}.

Inductive response :=
  | NoResponse                                             (* the promise is pending *)
  | SendText (status : nat) (text : string)               (* res.status(n).send(text) *)
  | SendJson (status : nat) (fields : list (string * string)).  (* res.status(n).json({...}) *)

Definition publicDir : string := "public".

(** The clean-up of lines 63-67: every input file is unlinked. *)
Definition clean_up (paths : list string) (fs : gset string) : gset string :=
  forEach paths (fun filePath _ fs => fs ∖ {[filePath]}) fs.

(** The POST /process route, lines 39-73: the answer and the files left. *)
Definition post_process (e : env) (fs : gset string) (seed : rng) (req : request)
    : response * gset string :=
  match mainAudio req, shortAudios req with
  | Some main, Some shorts =>
      let mainAudioFile := path main in
      let shortAudioFiles := map path shorts in
      let outputFileName := "output_" +:+ pretty (now e) +:+ ".aac" in
      let finalOutputPath := publicDir +:+ "/" +:+ outputFileName in
      let r := processAudio e fs seed mainAudioFile shortAudioFiles finalOutputPath in
      match promise r with
      | Some Resolved =>
          (SendJson 200 [("message", "Audio processed successfully");
                         ("downloadUrl", "/download/" +:+ outputFileName)],
           clean_up (mainAudioFile :: shortAudioFiles) (files_after r))
      | Some (RejectedWith message) =>
          (SendJson 500 [("error", "Error processing audio: " +:+ message)], files_after r)
      | None => (NoResponse, files_after r)
      end
  | _, _ =>
      (SendText 400 "Please upload one main audio file and at least one short audio file.", fs)
  end.
End WithGenerator.

(** The first [n] values [Math.random()] returns from the state [g]. *)
Fixpoint draws (rng : Type) (Math_random : rng -> Q * rng) (g : rng) (n : nat) : list Q :=
  match n with
  | O => []
  | S n' => (Math_random g).1 :: draws rng Math_random (Math_random g).2 n'
  end.

(** The route for any request.  [post_process] above is the handler once
    multer has set [req.files]; for a request that is not multipart
    [req.files] is [undefined] ([None]), line 43 has no [!req.files] test,
    reading [mainAudio] of it throws a [TypeError] in the synchronous
    handler, and the error handler of Express answers 500: no file is
    touched and no draw is made. *)
Inductive routed :=
  | Uncaught (status : nat)
  | Routed (r : response * gset string).

Definition route (rng : Type) (Math_random : rng -> Q * rng) (e : env) (fs : gset string)
    (seed : rng) (req_files : option request) : routed :=
  match req_files with
  | None => Uncaught 500
  | Some req => Routed (post_process rng Math_random e fs seed req)
  end.

End Stinger.

(** ** The POST /process route (the four metadata servers share lines 39-76) *)
Module Process.

(** A value returned by [JSON.parse]. *)
#[warnings="-register-all"]
Inductive json :=
  | JNull
  | JBool (b : bool)
  | JNum (q : Q)
  | JStr (s : string)
  | JArr (items : list json)
  | JObj (fields : list (string * json)).

(** [req.files.mainAudio], [req.files.backgroundAudios] and
    [req.body.backgroundAudioMetadata]; an absent field is [None]. *)
Record request := {
  mainAudio : option File;
  backgroundAudios : option (list File);
  backgroundAudioMetadata : option string
}.

(** What the handler does before any audio is touched: it answers at once,
    or it calls [processAudio] with these arguments. *)
Inductive outcome :=
  | Respond (status : nat) (error : string)
  | CallProcessAudio (mainAudioPath : string) (backgroundAudioFiles : list File)
      (metadata : json) (outputPath : string).

Definition publicDir : string := "public".

Section WithLibraries.
(** [JSON.parse]: the parsed value, or [None] when it throws. *)
Variable JSON_parse : string -> option json.
(** [path.parse(p).name] *)
Variable path_parse_name : string -> string.

(** A string is truthy unless it is empty. *)
Definition truthy (s : string) : bool := negb (String.eqb s "").

Definition post_process (req : request) : outcome :=
  match mainAudio req, backgroundAudios req with
  | Some mainAudioFile, Some backgroundAudioFiles =>
      let mainAudioFileOriginalName := path_parse_name (originalname mainAudioFile) in
      let outputFileName := mainAudioFileOriginalName +:+ ".aac" in
      let finalOutputPath := publicDir +:+ "/" +:+ outputFileName in
      match backgroundAudioMetadata req with
      | Some text =>
          if truthy text then
            match JSON_parse text with
            | Some parsed =>
                CallProcessAudio (path mainAudioFile) backgroundAudioFiles parsed finalOutputPath
            | None => Respond 400 "Invalid background audio metadata format"
            end
          else CallProcessAudio (path mainAudioFile) backgroundAudioFiles (JArr []) finalOutputPath
      | None => CallProcessAudio (path mainAudioFile) backgroundAudioFiles (JArr []) finalOutputPath
      end
  | _, _ =>
      Respond 400 "Please upload one main audio file and at least one background audio file."
  end.
End WithLibraries.

(** The payload of a request parses as a structured list. *)
Definition parses_as_list (JSON_parse : string -> option json) (text : string) : Prop :=
  exists items, JSON_parse text = Some (JArr items).

(** The request is rejected as malformed metadata. *)
Definition rejected (o : outcome) : Prop :=
  o = Respond 400 "Invalid background audio metadata format".

(** A parser that agrees with [JSON.parse] on the three texts of the
    examples below: the empty object, the empty list, and a text with an
    unbalanced bracket. *)
Definition parse_sample (text : string) : option json :=
  if String.eqb text "{}" then Some (JObj [])
  else if String.eqb text "[]" then Some (JArr [])
  else None.

End Process.

(** ** The GET /download/:filename route of part_000, lines 315-383 *)
Module Download.

(** What a path holds: audio that ffprobe reads, with its duration, or
    something ffprobe fails on (a directory included). *)
Inductive content :=
  | Audio (duration : Q)
  | Unreadable.

(** [fs.existsSync] *)
Definition existsSync (fs : gmap string content) (p : string) : bool :=
  bool_decide (is_Some (fs !! p)).

(** [getAudioDuration(filePath)]: resolves with the format's duration, or
    rejects ([None]). *)
Definition getAudioDuration (fs : gmap string content) (filePath : string) : option Q :=
  match fs !! filePath with
  | Some (Audio d) => Some d
  | _ => None
  end.

(** The decision of lines 343-350. *)
Inductive TrimDecision :=
  | Unchanged
  | TrimTo (duration : Q).

Definition reconcileOnRetrieval (artifactDuration referenceDuration : Q) : TrimDecision :=
  if Qle_bool artifactDuration referenceDuration then Unchanged
  else TrimTo referenceDuration.

(** The ffmpeg command of [trimAudio]. *)
Record trim_command := {
  input : string;
  setStartTime : Q;
  setDuration : Q;
  output : string
}.

Definition trimAudio_command (inputPath outputPath : string) (duration : Q) : trim_command :=
  {| input := inputPath; setStartTime := 0; setDuration := duration; output := outputPath |}.

(** Running the command: on [end] the output holds the input from
    [setStartTime] on, for at most [setDuration]; on [error] ([None]) the
    promise rejects. *)
Definition run_trim (ffmpeg_ok : bool) (c : trim_command) (fs : gmap string content)
    : option (gmap string content) :=
  if ffmpeg_ok then
    match fs !! input c with
    | Some (Audio d) => Some (<[output c := Audio (Qmin (d - setStartTime c) (setDuration c))]> fs)
    | _ => None
    end
  else None.

(** [trimAudio(inputPath, outputPath, duration)] *)
Definition trimAudio (ffmpeg_ok : bool) (fs : gmap string content)
    (inputPath outputPath : string) (duration : Q) : option (gmap string content) :=
  run_trim ffmpeg_ok (trimAudio_command inputPath outputPath duration) fs.

(** How the transfer started by [res.download] ends: the callback gets no
    error, or an error with [res.headersSent] as given. *)
Inductive transfer :=
  | Sent
  | Failed (headersSent : bool).

(** What the client is sent. *)
Inductive response :=
  | Send (status : nat) (body : string)       (* res.status(n).send(body) *)
  | SendFile (p : string)                     (* res.download(p), completed *)
  | SendFileFailed (p : string).              (* res.download(p), failed *)

(** The two tracks of a retrieval: the rendered artifact and the reference
    (main) track it is compared with. *)
Inductive track := Artifact | Reference.

(** What the server does not decide: whether ffmpeg succeeds and how the
    transfer ends. *)
Record env := { ffmpeg_ok : bool; handoff : transfer }.

(** [fs.unlink] *)
Definition unlink (p : string) (fs : gmap string content) : gmap string content :=
  delete p fs.

(** What one call of the handler has done when it and its callbacks are
    over: what the client was sent, in order; the path given to
    [res.download] with the files as they were at that moment; and the files
    left. *)
Record handled := {
  answers : list response;
  served : option (string * gmap string content);
  files : gmap string content
}.

(** The handler throws before it answers, or runs to its end. *)
Inductive outcome :=
  | Threw
  | Handled (h : handled).

Section WithPath.
(** [path.join] of Node, which normalises its result, and the directories
    [path.join(__dirname, 'uploads')], [... 'public'] and [... 'output']. *)
Variable path_join : string -> string -> string.
Variables uploadsDir publicDir outputDir : string.

(** The handler of lines 328-370.  [mainAudio] is [req.query.mainAudio];
    when it is not a string ([None]: the parameter is absent or repeated),
    [path.join] throws a [TypeError] at line 330, outside the [try]. *)
Definition download (e : env) (fs : gmap string content) (filename : string)
    (mainAudio : option string) : outcome :=
  let originalFilePath := path_join publicDir filename in
  match mainAudio with
  | None => Threw
  | Some mainAudio =>
      let mainAudioPath := path_join uploadsDir mainAudio in
      if negb (existsSync fs originalFilePath) || negb (existsSync fs mainAudioPath) then
        Handled {| answers := [Send 404 "File not found"]; served := None; files := fs |}
      else
        match getAudioDuration fs originalFilePath, getAudioDuration fs mainAudioPath with
        | Some originalDuration, Some mainDuration =>
            match reconcileOnRetrieval originalDuration mainDuration with
            | Unchanged =>
                Handled {| answers := match handoff e with
                                      | Sent => [SendFile originalFilePath]
                                      | Failed _ => [SendFileFailed originalFilePath]
                                      end;
                           served := Some (originalFilePath, fs);
                           files := fs |}
            | TrimTo duration =>
                let trimmedFilePath := path_join outputDir filename in
                match trimAudio (ffmpeg_ok e) fs originalFilePath trimmedFilePath duration with
                | Some fs1 =>
                    Handled {| answers :=
                                 match handoff e with
                                 | Sent => [SendFile trimmedFilePath]
                                 | Failed headersSent =>
                                     SendFileFailed trimmedFilePath ::
                                       (if headersSent then []
                                        else [Send 500 "Error during file download"])
                                 end;
                               served := Some (trimmedFilePath, fs1);
                               files := unlink trimmedFilePath fs1 |}
                | None =>
                    Handled {| answers := [Send 500 "Error processing audio file"];
                               served := None; files := fs |}
                end
            end
        | _, _ =>
            Handled {| answers := [Send 500 "Error processing audio file"];
                       served := None; files := fs |}
        end
  end.
End WithPath.

(** [path.join] on an absolute directory and a file name without a
    separator that is neither [.] nor [..]: the name is put after the
    directory, and the empty name gives the directory itself.  The examples
    use it, with these directories. *)
Definition join_plain (dir name : string) : string :=
  if String.eqb name "" then dir else dir +:+ "/" +:+ name.
Definition uploads_dir : string := "/app/uploads".
Definition public_dir : string := "/app/public".
Definition output_dir : string := "/app/output".

End Download.

(** ** The upload form, src/nextjs/app/page.js *)
Module Page.

(** A file chosen in the browser: its MIME type and its name. *)
Record BrowserFile := { type : string; name : string }.

(** [s.endsWith(suffix)] *)
Definition endsWith (s suffix : string) : bool :=
  (String.length suffix <=? String.length s)%nat &&
  String.eqb (String.substring (String.length s - String.length suffix) (String.length suffix) s) suffix.

(** The state of the component (lines 6-10). *)
Record state := {
  mainAudio : option BrowserFile;
  shortAudios : list BrowserFile;
  processing : bool;
  downloadUrl : string;
  error : string
}.

Definition initial : state :=
  {| mainAudio := None; shortAudios := []; processing := false; downloadUrl := ""; error := "" |}.

Section WithString.
(** [String.prototype.toLowerCase] *)
Variable toLowerCase : string -> string.

(** [isAacFile] (lines 12-14) *)
Definition isAacFile (file : BrowserFile) : bool :=
  String.eqb (type file) "audio/aac" || endsWith (toLowerCase (name file)) ".aac".

(** [handleMainAudioChange] on [e.target.files] (lines 16-25) *)
Definition handleMainAudioChange (files : list BrowserFile) (st : state) : state :=
  match files !! 0%nat with
  | Some file =>
      if isAacFile file then
        {| mainAudio := Some file; shortAudios := shortAudios st; processing := processing st;
           downloadUrl := downloadUrl st; error := "" |}
      else
        {| mainAudio := None; shortAudios := shortAudios st; processing := processing st;
           downloadUrl := downloadUrl st;
           error := "Please select an AAC file for the main audio." |}
  | None =>
      {| mainAudio := None; shortAudios := shortAudios st; processing := processing st;
         downloadUrl := downloadUrl st;
         error := "Please select an AAC file for the main audio." |}
  end.

(** [handleShortAudiosChange] on [e.target.files] (lines 27-37) *)
Definition handleShortAudiosChange (files : list BrowserFile) (st : state) : state :=
  let aacFiles := List.filter isAacFile files in
  if (length aacFiles =? length files)%nat then
    {| mainAudio := mainAudio st; shortAudios := aacFiles; processing := processing st;
       downloadUrl := downloadUrl st; error := "" |}
  else
    {| mainAudio := mainAudio st; shortAudios := []; processing := processing st;
       downloadUrl := downloadUrl st;
       error := "Please select only AAC files for the short audios." |}.

(** The [disabled] attribute of the submit button (line 98). *)
Definition submit_disabled (st : state) : bool :=
  negb (bool_decide (is_Some (mainAudio st))) ||
  (length (shortAudios st) =? 0)%nat ||
  processing st.

(** The form data built by [handleSubmit] (lines 45-47): field names and
    files, in the order they are appended. *)
Definition formData (st : state) : list (string * option BrowserFile) :=
  forEach (shortAudios st) (fun audio _ acc => acc ++ [("shortAudios", Some audio)])
          [("mainAudio", mainAudio st)].

(** [handleSubmit] up to the [await] of [fetch] (lines 39-50). *)
Definition handleSubmit_start (st : state) : state :=
  {| mainAudio := mainAudio st; shortAudios := shortAudios st; processing := true;
     downloadUrl := ""; error := "" |}.

(** [handleSubmit] once the request has ended (lines 55-64): [reply] is the
    [downloadUrl] of an ok response, or [None] when the response is not ok
    or [fetch] or [json] throws. *)
Definition handleSubmit_end (reply : option string) (st : state) : state :=
  match reply with
  | Some url =>
      {| mainAudio := mainAudio st; shortAudios := shortAudios st; processing := false;
         downloadUrl := "http://localhost:5001" +:+ url; error := error st |}
  | None =>
      {| mainAudio := mainAudio st; shortAudios := shortAudios st; processing := false;
         downloadUrl := downloadUrl st; error := "Processing failed. Please try again." |}
  end.

(** What happens to the form: the user picks files or submits (the browser
    does not submit through a disabled button), and a request ends. *)
Inductive event :=
  | MainAudioChange (files : list BrowserFile)
  | ShortAudiosChange (files : list BrowserFile)
  | Submit
  | RequestEnded (reply : option string).

Definition step (st : state) (ev : event) : state :=
  match ev with
  | MainAudioChange files => handleMainAudioChange files st
  | ShortAudiosChange files => handleShortAudiosChange files st
  | Submit => if submit_disabled st then st else handleSubmit_start st
  | RequestEnded reply => handleSubmit_end reply st
  end.

Definition run (events : list event) : state := fold_left step events initial.
End WithString.

End Page.

(** ** Arithmetic on doubles *)
Module Doubles.

(** *** Rounding to the nearest double *)

(** [2 ^ k] *)
Definition pow2 (k : Z) : Q := Qpower 2 k.

(** [floor (log2 x)] for a positive [x]. *)
Definition ilog2 (x : Q) : Z :=
  let k := (Z.log2 (Qnum x) - Z.log2 (Zpos (Qden x)))%Z in
  if Qle_bool (pow2 k) x then k else (k - 1)%Z.

(** The nearest integer, ties to the even one. *)
Definition round_half_even (x : Q) : Z :=
  let f := Qfloor x in
  match Qcompare (x - inject_Z f) (1 # 2) with
  | Lt => f
  | Gt => (f + 1)%Z
  | Eq => if Z.even f then f else (f + 1)%Z
  end.

(** The exponent of the last of the 53 bits kept for [a], not below the
    exponent of the subnormal numbers. *)
Definition exponent (a : Q) : Z := Z.max (ilog2 a - 52) (-1074).

(** The double nearest to a positive [a]. *)
Definition round_pos (a : Q) : Q :=
  inject_Z (round_half_even (a / pow2 (exponent a))) * pow2 (exponent a).

(** The double nearest to [x] (IEEE 754 binary64, round to nearest, ties to
    even).  Numbers are finite: a magnitude of [2 ^ 1024] or more, which a
    real double rounds to [Infinity], is kept finite here, and there is no
    [NaN]. *)
Definition round53 (x : Q) : Q :=
  match Qcompare x 0 with
  | Eq => 0
  | Gt => Qred (round_pos x)
  | Lt => Qred (- round_pos (- x))
  end.

Definition abs (x : Q) : Q := if Qle_bool 0 x then x else - x.

(** Half the distance between 1 and the next double. *)
Definition u : Q := pow2 (-53).

(** *** The operations of JavaScript on numbers *)

(** Which rationals are numbers of the language, and its [+], [-], [*]. *)
Record arithmetic := {
  double : Q -> Prop;
  add : Q -> Q -> Q;
  sub : Q -> Q -> Q;
  mul : Q -> Q -> Q
}.

(** JavaScript: every operation rounds its exact result to a double. *)
Definition binary64 : arithmetic :=
  {| double := fun x => round53 x == x;
     add := fun a b => round53 (a + b);
     sub := fun a b => round53 (a - b);
     mul := fun a b => round53 (a * b) |}.

(** Arithmetic without rounding: every rational counts as a number. *)
Definition exact : arithmetic :=
  {| double := fun _ => True; add := Qplus; sub := Qminus; mul := Qmult |}.

(** What the properties below use of the arithmetic; [binary64] and [exact]
    both have it.  A sum or difference of numbers is a number, it is the
    exact result when that is a number, rounding keeps the order, and the
    result is within the relative error [u] of the exact one. *)
Record faithful (ar : arithmetic) : Prop := {
  double_comp : forall x y, x == y -> double ar x -> double ar y;
  double_0 : double ar 0;
  double_add : forall a b, double ar a -> double ar b -> double ar (add ar a b);
  double_sub : forall a b, double ar a -> double ar b -> double ar (sub ar a b);
  add_exact : forall a b, double ar (a + b) -> add ar a b == a + b;
  sub_exact : forall a b, double ar (a - b) -> sub ar a b == a - b;
  add_monotone : forall a b c d, a + b <= c + d -> add ar a b <= add ar c d;
  sub_monotone : forall a b c d, a - b <= c - d -> sub ar a b <= sub ar c d;
  add_error : forall a b, double ar a -> double ar b ->
    abs (add ar a b - (a + b)) <= u * abs (a + b);
  sub_error : forall a b, double ar a -> double ar b ->
    abs (sub ar a b - (a - b)) <= u * abs (a - b)
}.

(** The main duration and the timestamp and duration of an entry are
    numbers of the language. *)
Definition doubles (ar : arithmetic) (mainDuration : Q) (metadata : Metadata.t) : Prop :=
  double ar mainDuration /\
  (forall q, Metadata.timestamp metadata = Some q -> double ar q) /\
  (forall q, Metadata.duration metadata = Some q -> double ar q).

(** *** The constants of the two loops, with the operations rounded *)
Section WithArithmetic.
Variable ar : arithmetic.

(** part_000, line 109: [(metadata.timestamp || 0) * 1000] *)
Definition Timestamp_delay (metadata : Metadata.t) : Q :=
  mul ar (Metadata.timestamp metadata |? 0) 1000.

(** part_000, line 111:
    [Math.min(metadata.duration || mainDuration,
              mainDuration - (metadata.timestamp || 0))] *)
Definition Timestamp_duration (mainDuration : Q) (metadata : Metadata.t) : Q :=
  Qmin (Metadata.duration metadata |? mainDuration)
       (sub ar mainDuration (Metadata.timestamp metadata |? 0)).

(** The placement of the clip at [index] in part_000: it starts at the
    offset of which [Timestamp_delay] is the milliseconds and lasts the
    [atrim=duration]. *)
Definition Timestamp_resolve (mainDuration : Q)
    (backgroundAudioMetadata : list (option Metadata.t)) (index : nat) : ClipPlacement :=
  let metadata := entry backgroundAudioMetadata index in
  {| sourceIndex := (index + 1)%nat;
     startOffsetSeconds := Metadata.timestamp metadata |? 0;
     gain := Timestamp.volume metadata;
     spanSeconds := Timestamp_duration mainDuration metadata |}.

(** index.js, line 109: [parseFloat(bgMetadata.timestamp) || 0] *)
Definition Submix_startTime (bgMetadata : Metadata.t) : Q :=
  parseFloat (Metadata.timestamp bgMetadata) |? 0.

(** index.js, line 112:
    [parseFloat(bgMetadata.duration) || (mainDuration - startTime)] *)
Definition Submix_specifiedDuration (mainDuration : Q) (bgMetadata : Metadata.t) : Q :=
  parseFloat (Metadata.duration bgMetadata) |? sub ar mainDuration (Submix_startTime bgMetadata).

(** index.js, line 113: [Math.min(startTime + specifiedDuration, mainDuration)] *)
Definition Submix_endTime (mainDuration : Q) (bgMetadata : Metadata.t) : Q :=
  Qmin (add ar (Submix_startTime bgMetadata) (Submix_specifiedDuration mainDuration bgMetadata))
       mainDuration.

(** index.js, line 119: the [endTime - startTime] of the fade, which is how
    long the trimmed clip lasts, and the start [endTime - startTime - 0.5]
    of the fade. *)
Definition Submix_span (mainDuration : Q) (bgMetadata : Metadata.t) : Q :=
  sub ar (Submix_endTime mainDuration bgMetadata) (Submix_startTime bgMetadata).

Definition Submix_fadeStart (mainDuration : Q) (bgMetadata : Metadata.t) : Q :=
  sub ar (Submix_span mainDuration bgMetadata) 0.5.

(** The placement of the clip at [index] in index.js. *)
Definition Submix_resolve (mainDuration : Q)
    (backgroundAudioMetadata : list (option Metadata.t)) (index : nat) : ClipPlacement :=
  let bgMetadata := entry backgroundAudioMetadata index in
  {| sourceIndex := (index + 1)%nat;
     startOffsetSeconds := Submix_startTime bgMetadata;
     gain := Submix.volume bgMetadata;
     spanSeconds := Submix_span mainDuration bgMetadata |}.
End WithArithmetic.

End Doubles.

(** ** What [||] and [Math.min] do to a JSON value *)
Module Coercion.

Section WithToNumber.
(** [ToNumber] on a string and on an array or object (through its
    primitive value); [None] is [NaN]. *)
Variable StringToNumber : string -> option Q.
Variable ObjectToNumber : Process.json -> option Q.

(** [ToBoolean]; [None] is [undefined], a missing property. *)
Definition truthy (v : option Process.json) : bool :=
  match v with
  | None => false
  | Some Process.JNull => false
  | Some (Process.JBool b) => b
  | Some (Process.JNum q) => negb (Qeq_bool q 0)
  | Some (Process.JStr s) => negb (String.eqb s "")
  | Some (Process.JArr _) | Some (Process.JObj _) => true
  end.

(** [ToNumber] *)
Definition ToNumber (v : option Process.json) : option Q :=
  match v with
  | None => None
  | Some Process.JNull => Some 0
  | Some (Process.JBool b) => Some (if b then 1 else 0)
  | Some (Process.JNum q) => Some q
  | Some (Process.JStr s) => StringToNumber s
  | Some (Process.JArr items) => ObjectToNumber (Process.JArr items)
  | Some (Process.JObj fields) => ObjectToNumber (Process.JObj fields)
  end.

(** [v || d] *)
Definition or (v : option Process.json) (d : Process.json) : option Process.json :=
  if truthy v then v else Some d.

(** [Math.min(a, b)]: [NaN] if either number is. *)
Definition Math_min (a b : option Process.json) : option Q :=
  match ToNumber a, ToNumber b with
  | Some x, Some y => Some (Qmin x y)
  | _, _ => None
  end.

(** [Math.min(metadata.volume || 1, 1)] of part_000 line 110 and index.js
    line 110, for whatever [JSON.parse] put in [volume]. *)
Definition volume (v : option Process.json) : option Q :=
  Math_min (or v (Process.JNum 1)) (Some (Process.JNum 1)).
End WithToNumber.

(** A conversion that agrees with [ToNumber] on the string ["0"] and gives
    [NaN] elsewhere; the examples use it. *)
Definition number_of_zero (s : string) : option Q :=
  if String.eqb s "0" then Some 0 else None.

End Coercion.

(** ** Checks on a filter graph *)
Module Graph.

(** The pad [k:a] of the command's input [k]. *)
Definition source_label (k : nat) : string := pretty k +:+ ":a".

(** Walking the chains in the order they are pushed, every label a chain
    reads is already known: it is an input pad or was written by an earlier
    chain. *)
Fixpoint connected (known : list string) (g : list chain) : bool :=
  match g with
  | [] => true
  | c :: g' =>
      forallb (fun l => bool_decide (l ∈ known)) (ins c) && connected (known ++ [out c]) g'
  end.

(** The graph only reads the pads of [n_inputs] inputs and labels written
    before. *)
Definition well_formed (n_inputs : nat) (g : list chain) : bool :=
  connected (map source_label (seq 0 n_inputs)) g.

(** Every [amix=inputs=n] is fed exactly [n] labels. *)
Definition mix_arity_ok (c : chain) : bool :=
  forallb (fun f => match f with
                    | Amix n _ => Nat.eqb n (length (ins c))
                    | _ => true
                    end) (filters c).

(** The string is not empty and does not start with the letter m (no
    decimal numeral does, which keeps the labels [bg<n>] apart from
    [bgmix]). *)
Definition not_m_headed (s : string) : Prop :=
  match s with
  | String c _ => String c "" <> "m"
  | EmptyString => False
  end.

(** The chain holds an [amix]. *)
Definition mixes (c : chain) : bool :=
  existsb (fun f => match f with Amix _ _ => true | _ => false end) (filters c).

End Graph.

(** * Properties *)

(** ** Loops that push on two arrays *)

Lemma forEach_from_push {A B C : Type} (body : A -> nat -> list B * list C -> list B * list C)
    (f : nat -> list B) (g : nat -> list C) :
  (forall x i st, body x i st = (st.1 ++ f i, st.2 ++ g i)) ->
  forall (l : list A) (k : nat) (a : list B) (b : list C),
    forEach_from body l k (a, b)
    = (a ++ flat_map f (seq k (length l)), b ++ flat_map g (seq k (length l))).
Proof.
  intros Hbody l. induction l as [|x l IH]; intros k a b; simpl.
  - by rewrite !app_nil_r.
  - rewrite Hbody, IH. simpl. by rewrite <- !app_assoc.
Qed.

Lemma forEach_from_length {A St : Type} (body : A -> nat -> St -> St) :
  (forall x y i s, body x i s = body y i s) ->
  forall (l l' : list A) (k : nat) (s : St),
    length l = length l' -> forEach_from body l k s = forEach_from body l' k s.
Proof.
  intros Hbody l. induction l as [|x l IH]; intros [|y l'] k s Hlen; simpl in *; try done.
  rewrite (Hbody x y). apply IH. lia.
Qed.

Lemma flat_map_singleton {A B : Type} (f : A -> B) (l : list A) :
  flat_map (fun x => [f x]) l = map f l.
Proof. induction l as [|x l IH]; simpl; [done | by rewrite IH]. Qed.

Lemma lookup_map_seq {B : Type} (f : nat -> B) (n i : nat) :
  (i < n)%nat -> map f (seq 0 n) !! i = Some (f i).
Proof.
  intros Hi. rewrite list_lookup_fmap, lookup_seq_lt by done. done.
Qed.

(** ** The filter graphs in closed form *)

Lemma Timestamp_filter_graph_eq (mainDuration : Q) (files : list File)
    (meta : list (option Metadata.t)) :
  Timestamp.filter_graph mainDuration files meta
  = map (Timestamp.clip_chain mainDuration meta) (seq 0 (length files)) ++
    [{| ins := "0:a" :: map delayed_label (seq 0 (length files));
        filters := [Amix (S (length files)) (Some duration_first); AtrimDuration mainDuration];
        out := "out" |}].
Proof.
  unfold Timestamp.filter_graph, forEach.
  rewrite (forEach_from_push _ (fun i => [Timestamp.clip_chain mainDuration meta i])
             (fun i => [out (Timestamp.clip_chain mainDuration meta i)])) by done.
  rewrite !flat_map_singleton. simpl.
  by rewrite length_map, length_seq.
Qed.

(** ** Arithmetic of the loop constants *)

Lemma js_or_cases (x : option Q) (d : Q) :
  (x = None /\ x |? d = d) \/
  (exists q, x = Some q /\ q == 0 /\ x |? d = d) \/
  (exists q, x = Some q /\ ~ q == 0 /\ x |? d = q).
Proof.
  destruct x as [q|]; [right | left; done].
  unfold js_or. destruct (Qeq_bool q 0) eqn:E.
  - left. exists q. by apply Qeq_bool_iff in E.
  - right. exists q. split; [done|]. split; [|done].
    intros H. apply Qeq_bool_iff in H. congruence.
Qed.

(** Name every [Math.min] of the goal and keep only its defining property. *)
Ltac name_min :=
  repeat match goal with
  | |- context [Qmin ?a ?b] =>
      let H := fresh "Hmin" in
      let m := fresh "m" in
      pose proof (Q.min_spec a b) as H;
      set (m := Qmin a b) in *; clearbody m
  end.

(** Split on how [x || d] was decided. *)
Ltac split_or x d :=
  let q := fresh "q" in
  let E := fresh "E" in
  destruct (js_or_cases x d) as [[? E]|[(q & ? & ? & E)|(q & ? & ? & E)]];
  rewrite E in *; clear E.

Lemma volume_le_1 (m : Metadata.t) : Timestamp.volume m <= 1.
Proof. unfold Timestamp.volume. apply Q.le_min_r. Qed.

Lemma volume_nonzero (m : Metadata.t) : ~ Timestamp.volume m == 0.
Proof.
  unfold Timestamp.volume.
  split_or (Metadata.volume m) 1; name_min; lra.
Qed.

(** ** C1: the retrieval decision *)

(** C1, as stated, fails: 10.005 is within 10 ms of 10.0, yet the route
    trims, because line 343 compares the two durations exactly. *)
Lemma C1_counterexample :
  10.005 <= 10.0 + 0.01 /\
  Download.reconcileOnRetrieval 10.005 10.0 <> Download.Unchanged.
Proof. split; [lra | by vm_compute]. Qed.

(** C1 (amended): the decision is [Unchanged] exactly when the artifact is
    not longer than the reference, with no tolerance; otherwise it is
    [TrimTo] the reference duration, and the trim command starts at offset 0
    and lasts the reference duration. *)
Theorem C1_reconcile_exact (artifactDuration referenceDuration : Q) :
  (artifactDuration <= referenceDuration ->
     Download.reconcileOnRetrieval artifactDuration referenceDuration = Download.Unchanged) /\
  (referenceDuration < artifactDuration ->
     Download.reconcileOnRetrieval artifactDuration referenceDuration
       = Download.TrimTo referenceDuration /\
     forall inputPath outputPath,
       Download.setStartTime (Download.trimAudio_command inputPath outputPath referenceDuration) = 0 /\
       Download.setDuration (Download.trimAudio_command inputPath outputPath referenceDuration)
         = referenceDuration).
Proof.
  unfold Download.reconcileOnRetrieval. split.
  - intros H. apply Qle_bool_iff in H. by rewrite H.
  - intros H. destruct (Qle_bool artifactDuration referenceDuration) eqn:E.
    + apply Qle_bool_iff in E. lra.
    + done.
Qed.

Lemma C1_reconcile_exact_witness :
  Download.reconcileOnRetrieval 10.0 12.0 = Download.Unchanged /\
  Download.reconcileOnRetrieval 12.0 10.0 = Download.TrimTo 10.0 /\
  Download.reconcileOnRetrieval 10.005 10.0 = Download.TrimTo 10.0.
Proof.
  split; [|split].
  - apply (C1_reconcile_exact 10.0 12.0). lra.
  - apply (C1_reconcile_exact 12.0 10.0). lra.
  - apply (C1_reconcile_exact 10.005 10.0). lra.
Defined.

(** ** C2: bounds of the resolved placements *)

Lemma Timestamp_clip_lookup (mainDuration : Q) (files : list File)
    (meta : list (option Metadata.t)) (index : nat) :
  (index < length files)%nat ->
  Timestamp.filter_graph mainDuration files meta !! index
  = Some (Timestamp.clip_chain mainDuration meta index).
Proof.
  intros Hi. rewrite Timestamp_filter_graph_eq.
  rewrite lookup_app_l by (by rewrite length_map, length_seq).
  by apply lookup_map_seq.
Qed.

(** C2, as stated, fails: a clip whose raw offset is the main duration (30 s)
    gets a span of zero in both metadata servers, and a negative raw offset
    is kept negative; with exact operations and with operations rounded to
    doubles alike, the numbers being integers. *)
Lemma C2_counterexample :
  let at_end := {| Metadata.timestamp := Some 30; Metadata.duration := None;
                   Metadata.volume := None |} in
  let before := {| Metadata.timestamp := Some (-5); Metadata.duration := None;
                   Metadata.volume := None |} in
  (~ 0 < spanSeconds (Timestamp.resolve 30 [Some at_end] 0) /\
   ~ 0 < spanSeconds (Submix.resolve 30 [Some at_end] 0) /\
   ~ 0 <= startOffsetSeconds (Timestamp.resolve 30 [Some before] 0) /\
   ~ 0 <= startOffsetSeconds (Submix.resolve 30 [Some before] 0)) /\
  (~ 0 < spanSeconds (Doubles.Timestamp_resolve Doubles.binary64 30 [Some at_end] 0) /\
   ~ 0 < spanSeconds (Doubles.Submix_resolve Doubles.binary64 30 [Some at_end] 0) /\
   ~ 0 <= startOffsetSeconds (Doubles.Timestamp_resolve Doubles.binary64 30 [Some before] 0) /\
   ~ 0 <= startOffsetSeconds (Doubles.Submix_resolve Doubles.binary64 30 [Some before] 0)).
Proof. vm_compute. repeat split; intros H; first [discriminate H | by apply H]. Qed.

(** *** Rounding to the nearest double *)

Section Rounding.
Import Doubles.

(** Powers of two and the binary logarithm. *)

Lemma pow2_pos (k : Z) : 0 < pow2 k.
Proof. apply Qpower_0_lt. lra. Qed.

Lemma pow2_add (a b : Z) : pow2 (a + b) == pow2 a * pow2 b.
Proof. apply Qpower_plus. lra. Qed.

Lemma pow2_sub (a b : Z) : pow2 (a - b) == pow2 a / pow2 b.
Proof. apply Qpower_minus. lra. Qed.

Lemma pow2_le (a b : Z) : (a <= b)%Z -> pow2 a <= pow2 b.
Proof. intros H. apply Qpower_le_compat_l; [done | lra]. Qed.

Lemma pow2_lt (a b : Z) : (a < b)%Z -> pow2 a < pow2 b.
Proof. intros H. apply Qpower_lt_compat_l; [done | lra]. Qed.

Lemma pow2_lt_inv (a b : Z) : pow2 a < pow2 b -> (a < b)%Z.
Proof. intros H. apply (Qpower_lt_compat_l_inv 2); [done | lra]. Qed.

Lemma pow2_Z (n : Z) : (0 <= n)%Z -> pow2 n == inject_Z (2 ^ n).
Proof. intros H. unfold pow2. by rewrite Zpower_Qpower. Qed.

Lemma pow2_S (a : Z) : pow2 (a + 1) == 2 * pow2 a.
Proof. rewrite pow2_add. change (pow2 1) with 2. ring. Qed.

Lemma inject_Z_pow2 (n : Z) : (0 <= n)%Z -> inject_Z (2 ^ n) == pow2 n.
Proof. intros H. by rewrite pow2_Z. Qed.

Lemma ilog2_spec (x : Q) :
  0 < x -> pow2 (ilog2 x) <= x /\ x < pow2 (ilog2 x + 1).
Proof.
  intros Hx. destruct x as [n d]. unfold ilog2. cbn [Qnum Qden].
  assert (Hn : (0 < n)%Z) by (unfold Qlt in Hx; simpl in Hx; lia).
  destruct (Z.log2_spec n Hn) as [Hn1 Hn2].
  destruct (Z.log2_spec (Zpos d) ltac:(lia)) as [Hd1 Hd2].
  pose proof (Z.log2_nonneg n) as Hln. pose proof (Z.log2_nonneg (Zpos d)) as Hld.
  set (ln := Z.log2 n) in *. set (ld := Z.log2 (Zpos d)) in *.
  assert (Ex : (n # d) * inject_Z (Zpos d) == inject_Z n).
  { rewrite (Qmake_Qdiv n d). field. unfold Qeq. simpl. lia. }
  assert (HD : 0 < inject_Z (Zpos d)) by (unfold Qlt; simpl; lia).
  rewrite <- !Z.add_1_r in Hn2, Hd2.
  rewrite Zle_Qle in Hn1, Hd1. rewrite Zlt_Qlt in Hn2, Hd2.
  rewrite !inject_Z_pow2 in Hn1, Hd1, Hn2, Hd2 by lia.
  rewrite pow2_S in Hn2, Hd2.
  assert (Hk : pow2 (ln - ld) * pow2 ld == pow2 ln).
  { rewrite <- pow2_add. by replace (ln - ld + ld)%Z with ln by lia. }
  assert (Hk1 : pow2 (ln - ld) == 2 * pow2 (ln - ld - 1)).
  { rewrite <- pow2_S. by replace (ln - ld - 1 + 1)%Z with (ln - ld)%Z by lia. }
  pose proof (pow2_S (ln - ld)) as Hk2.
  pose proof (pow2_pos (ln - ld)) as HP. pose proof (pow2_pos ld) as HPd.
  pose proof (pow2_pos (ln - ld - 1)) as HP1.
  set (X := n # d) in *. set (D := inject_Z (Zpos d)) in *. set (N := inject_Z n) in *.
  set (P := pow2 (ln - ld)) in *. set (Pd := pow2 ld) in *. set (Pn := pow2 ln) in *.
  assert (Hup : X < 2 * P).
  { apply Qnot_le_lt. intros Hc.
    assert (2 * P * Pd <= X * D); [|lra].
    apply Qle_trans with (X * Pd).
    - apply Qmult_le_compat_r; lra.
    - rewrite !(Qmult_comm X). apply Qmult_le_compat_r; lra. }
  assert (Hlow : P <= 2 * X).
  { apply Qnot_lt_le. intros Hc.
    assert (A1 : D * X < (2 * Pd) * X) by (apply Qmult_lt_compat_r; lra).
    assert (A2 : (2 * X) * Pd < P * Pd) by (apply Qmult_lt_compat_r; lra).
    lra. }
  destruct (Qle_bool P X) eqn:E.
  - apply Qle_bool_iff in E. split; [done|]. rewrite Hk2. done.
  - assert (X < P).
    { apply Qnot_le_lt. intros Hc. apply Qle_bool_iff in Hc. congruence. }
    replace (ln - ld - 1 + 1)%Z with (ln - ld)%Z by lia. fold P.
    split; [lra | done].
Qed.

Lemma ilog2_unique (x : Q) (k : Z) : pow2 k <= x -> x < pow2 (k + 1) -> ilog2 x = k.
Proof.
  intros H1 H2.
  assert (Hx : 0 < x) by (pose proof (pow2_pos k); lra).
  destruct (ilog2_spec x Hx) as [H3 H4].
  assert (ilog2 x < k + 1)%Z by (apply pow2_lt_inv; lra).
  assert (k < ilog2 x + 1)%Z by (apply pow2_lt_inv; lra).
  lia.
Qed.

Lemma ilog2_comp (x y : Q) : 0 < x -> x == y -> ilog2 x = ilog2 y.
Proof.
  intros Hx Hxy. destruct (ilog2_spec x Hx) as [H1 H2].
  symmetry. apply ilog2_unique; lra.
Qed.

Lemma ilog2_le (x y : Q) : 0 < x -> x <= y -> (ilog2 x <= ilog2 y)%Z.
Proof.
  intros Hx Hxy. destruct (ilog2_spec x Hx) as [H1 H2].
  destruct (ilog2_spec y ltac:(lra)) as [H3 H4].
  assert (ilog2 x < ilog2 y + 1)%Z by (apply pow2_lt_inv; lra). lia.
Qed.

(** Rounding to the nearest integer. *)

Lemma round_half_even_spec (x : Q) :
  inject_Z (round_half_even x) - x <= 1 # 2 /\ x - inject_Z (round_half_even x) <= 1 # 2.
Proof.
  unfold round_half_even.
  pose proof (Qfloor_le x) as H1. pose proof (Qlt_floor x) as H2.
  rewrite inject_Z_plus in H2. change (inject_Z 1) with 1 in H2.
  destruct (Qcompare_spec (x - inject_Z (Qfloor x)) (1 # 2)) as [H|H|H].
  - destruct (Z.even (Qfloor x)); [lra|].
    rewrite inject_Z_plus. change (inject_Z 1) with 1. lra.
  - lra.
  - rewrite inject_Z_plus. change (inject_Z 1) with 1. lra.
Qed.

Lemma round_half_even_Z (n : Z) : round_half_even (inject_Z n) = n.
Proof.
  unfold round_half_even. rewrite Qfloor_Z.
  destruct (Qcompare_spec (inject_Z n - inject_Z n) (1 # 2)) as [H|H|H]; [lra | done | lra].
Qed.

Lemma round_half_even_comp (x y : Q) : x == y -> round_half_even x = round_half_even y.
Proof.
  intros H. unfold round_half_even. rewrite (Qfloor_comp x y H).
  assert (E : x - inject_Z (Qfloor y) == y - inject_Z (Qfloor y)) by (by rewrite H).
  by rewrite (Qcompare_comp _ _ E _ _ (Qeq_refl (1 # 2))).
Qed.

Lemma round_half_even_bounds (x : Q) :
  (Qfloor x <= round_half_even x <= Qfloor x + 1)%Z.
Proof.
  unfold round_half_even.
  destruct (Qcompare _ _); [destruct (Z.even _)| |]; lia.
Qed.

Lemma round_half_even_le (x y : Q) : x <= y -> (round_half_even x <= round_half_even y)%Z.
Proof.
  intros Hxy. pose proof (Qfloor_resp_le x y Hxy) as Hf.
  destruct (Z.eq_dec (Qfloor x) (Qfloor y)) as [E|E].
  - unfold round_half_even. rewrite E.
    destruct (Qcompare_spec (x - inject_Z (Qfloor y)) (1 # 2)) as [H|H|H];
      destruct (Qcompare_spec (y - inject_Z (Qfloor y)) (1 # 2)) as [H'|H'|H'];
      try destruct (Z.even (Qfloor y)); try lia; lra.
  - pose proof (round_half_even_bounds x). pose proof (round_half_even_bounds y). lia.
Qed.

(** Rounding a positive number. *)

Lemma exponent_comp (a b : Q) : 0 < a -> a == b -> exponent a = exponent b.
Proof. intros Ha Hab. unfold exponent. by rewrite (ilog2_comp a b Ha Hab). Qed.

Lemma round_pos_comp (a b : Q) : 0 < a -> a == b -> round_pos a == round_pos b.
Proof.
  intros Ha Hab. unfold round_pos. rewrite <- (exponent_comp a b Ha Hab).
  rewrite (round_half_even_comp (a / pow2 (exponent a)) (b / pow2 (exponent a))); [done|].
  unfold Qdiv. apply Qmult_comp; [exact Hab | reflexivity].
Qed.

Lemma exponent_ge (a : Q) : (-1074 <= exponent a)%Z /\ (ilog2 a - 52 <= exponent a)%Z.
Proof. unfold exponent. lia. Qed.

Lemma scaled_bounds (a : Q) :
  0 < a ->
  pow2 (ilog2 a - exponent a) <= a / pow2 (exponent a) /\
  a / pow2 (exponent a) < pow2 (ilog2 a + 1 - exponent a).
Proof.
  intros Ha. destruct (ilog2_spec a Ha) as [H1 H2].
  pose proof (pow2_pos (exponent a)) as He.
  rewrite !pow2_sub. split.
  - apply Qmult_le_compat_r; [done|]. apply Qlt_le_weak, Qinv_lt_0_compat, He.
  - apply Qmult_lt_compat_r; [|done]. apply Qinv_lt_0_compat, He.
Qed.

Lemma div_mul_pow2 (a : Q) (e : Z) : a / pow2 e * pow2 e == a.
Proof. field. pose proof (pow2_pos e). lra. Qed.

Lemma round_pos_nonneg (a : Q) : 0 < a -> 0 <= round_pos a.
Proof.
  intros Ha. unfold round_pos.
  apply Qmult_le_0_compat; [|apply Qlt_le_weak, pow2_pos].
  change 0 with (inject_Z 0). rewrite <- Zle_Qle.
  rewrite <- (round_half_even_Z 0). apply round_half_even_le.
  change (inject_Z 0) with 0. apply Qlt_le_weak.
  apply Qlt_shift_div_l; [apply pow2_pos | lra].
Qed.

(** A number with at most 53 significant bits above the smallest exponent
    is rounded to itself. *)
Lemma round_pos_fixed_lt (x : Q) (M E : Z) :
  0 < x -> x == inject_Z M * pow2 E -> (M < 2 ^ 53)%Z -> (-1074 <= E)%Z ->
  round_pos x == x.
Proof.
  intros Hx HxM HM HE.
  pose proof (pow2_pos E) as HpE.
  assert (Hlt : x < pow2 (53 + E)).
  { rewrite HxM, pow2_add. apply Qmult_lt_compat_r; [done|].
    rewrite pow2_Z by lia. by rewrite <- Zlt_Qlt. }
  destruct (ilog2_spec x Hx) as [H1 _].
  assert (Hk : (ilog2 x < 53 + E)%Z) by (apply pow2_lt_inv; lra).
  assert (He : (exponent x <= E)%Z) by (unfold exponent; lia).
  unfold round_pos. set (e := exponent x) in *.
  assert (Hs : x / pow2 e == inject_Z (M * 2 ^ (E - e))).
  { rewrite inject_Z_mult, inject_Z_pow2 by lia. rewrite HxM, pow2_sub.
    field. pose proof (pow2_pos e). lra. }
  rewrite (round_half_even_comp _ _ Hs), round_half_even_Z.
  rewrite inject_Z_mult, inject_Z_pow2 by lia. rewrite HxM, pow2_sub.
  field. pose proof (pow2_pos e). lra.
Qed.

Lemma round_pos_fixed (x : Q) (M E : Z) :
  0 < x -> x == inject_Z M * pow2 E -> (M <= 2 ^ 53)%Z -> (-1074 <= E)%Z ->
  round_pos x == x.
Proof.
  intros Hx HxM HM HE.
  destruct (Z.eq_dec M (2 ^ 53)%Z) as [->|Hne].
  - apply (round_pos_fixed_lt x (2 ^ 52)%Z (E + 1)); [done| |done|lia].
    assert (H53 : inject_Z (2 ^ 53) == 2 * inject_Z (2 ^ 52)) by done.
    rewrite HxM, H53, pow2_S. ring.
  - apply (round_pos_fixed_lt x M E); [done|done|lia|done].
Qed.

Lemma round_pos_form (a : Q) :
  0 < a ->
  (0 <= round_half_even (a / pow2 (exponent a)) <= 2 ^ 53)%Z /\
  round_pos a == inject_Z (round_half_even (a / pow2 (exponent a))) * pow2 (exponent a).
Proof.
  intros Ha. split; [|done].
  destruct (scaled_bounds a Ha) as [H1 H2].
  destruct (exponent_ge a) as [He1 He2].
  set (s := a / pow2 (exponent a)) in *. split.
  - rewrite <- (round_half_even_Z 0). apply round_half_even_le.
    change (inject_Z 0) with 0. pose proof (pow2_pos (ilog2 a - exponent a)). lra.
  - rewrite <- (round_half_even_Z (2 ^ 53)). apply round_half_even_le.
    rewrite inject_Z_pow2 by lia.
    assert (pow2 (ilog2 a + 1 - exponent a) <= pow2 53) by (apply pow2_le; lia). lra.
Qed.

Lemma round_pos_idempotent (a : Q) :
  0 < a -> 0 < round_pos a -> round_pos (round_pos a) == round_pos a.
Proof.
  intros Ha Hr. destruct (round_pos_form a Ha) as [[_ HM] Hform].
  destruct (exponent_ge a) as [He _].
  exact (round_pos_fixed _ _ _ Hr Hform HM He).
Qed.

Lemma round_pos_le (a b : Q) : 0 < a -> a <= b -> round_pos a <= round_pos b.
Proof.
  intros Ha Hab. assert (Hb : 0 < b) by lra.
  pose proof (ilog2_le a b Ha Hab) as Hk.
  destruct (scaled_bounds a Ha) as [_ Ha2]. destruct (scaled_bounds b Hb) as [Hb1 _].
  destruct (Z.eq_dec (exponent a) (exponent b)) as [E|E].
  - unfold round_pos. rewrite E.
    apply Qmult_le_compat_r; [|apply Qlt_le_weak, pow2_pos].
    rewrite <- Zle_Qle. apply round_half_even_le.
    apply Qmult_le_compat_r; [done|]. apply Qlt_le_weak, Qinv_lt_0_compat, pow2_pos.
  - assert (Hlt : (exponent a < exponent b)%Z) by (unfold exponent in *; lia).
    assert (Heb : exponent b = (ilog2 b - 52)%Z) by (unfold exponent in *; lia).
    assert (Hka : (ilog2 a < ilog2 b)%Z) by (unfold exponent in *; lia).
    apply Qle_trans with (pow2 (ilog2 b)).
    + unfold round_pos.
      set (j := Z.max (ilog2 a + 1 - exponent a) 0).
      assert (Hs : a / pow2 (exponent a) <= inject_Z (2 ^ j)).
      { rewrite inject_Z_pow2 by lia.
        assert (pow2 (ilog2 a + 1 - exponent a) <= pow2 j) by (apply pow2_le; lia). lra. }
      apply round_half_even_le in Hs. rewrite round_half_even_Z in Hs.
      rewrite Zle_Qle, inject_Z_pow2 in Hs by lia.
      apply Qle_trans with (pow2 j * pow2 (exponent a)).
      * apply Qmult_le_compat_r; [done|]. apply Qlt_le_weak, pow2_pos.
      * rewrite <- pow2_add. apply pow2_le. lia.
    + unfold round_pos. rewrite Heb in *.
      replace (ilog2 b - (ilog2 b - 52))%Z with 52%Z in Hb1 by lia.
      rewrite <- inject_Z_pow2 in Hb1 by lia.
      apply round_half_even_le in Hb1. rewrite round_half_even_Z in Hb1.
      rewrite Zle_Qle, inject_Z_pow2 in Hb1 by lia.
      apply Qle_trans with (pow2 52 * pow2 (ilog2 b - 52)).
      * rewrite <- pow2_add. apply pow2_le. lia.
      * apply Qmult_le_compat_r; [done|]. apply Qlt_le_weak, pow2_pos.
Qed.

(** The error of rounding a positive multiple of the smallest subnormal. *)
Lemma round_pos_error (x : Q) (N : Z) :
  0 < x -> x == inject_Z N * pow2 (-1074) ->
  round_pos x - x <= u * x /\ x - round_pos x <= u * x.
Proof.
  intros Hx HN.
  assert (Hu : 0 < u) by apply pow2_pos.
  assert (Hux : 0 <= u * x) by (apply Qmult_le_0_compat; lra).
  destruct (Z_le_gt_dec (ilog2 x - 52) (-1074)) as [Hsub|Hnorm].
  - assert (Hfix : round_pos x == x).
    { unfold round_pos.
      assert (He : exponent x = (-1074)%Z) by (unfold exponent; lia).
      rewrite He.
      assert (Hs : x / pow2 (-1074) == inject_Z N).
      { rewrite HN. field. pose proof (pow2_pos (-1074)). lra. }
      rewrite (round_half_even_comp _ _ Hs), round_half_even_Z. by rewrite HN. }
    rewrite Hfix. lra.
  - assert (He : exponent x = (ilog2 x - 52)%Z) by (unfold exponent; lia).
    destruct (ilog2_spec x Hx) as [Hk _].
    unfold round_pos. rewrite He. set (e := (ilog2 x - 52)%Z).
    destruct (round_half_even_spec (x / pow2 e)) as [R1 R2].
    set (m := inject_Z (round_half_even (x / pow2 e))) in *.
    pose proof (pow2_pos e) as Hpe.
    assert (Hx' : x == x / pow2 e * pow2 e) by (by rewrite div_mul_pow2).
    set (s := x / pow2 e) in *.
    assert (Hhalf : (1 # 2) * pow2 e <= u * x).
    { assert (Hp : (1 # 2) * pow2 e == u * pow2 (ilog2 x)).
      { unfold u. rewrite <- pow2_add.
        replace (-53 + ilog2 x)%Z with (e - 1)%Z by (unfold e; lia).
        pose proof (pow2_S (e - 1)) as HS.
        replace (e - 1 + 1)%Z with e in HS by lia. rewrite HS. ring. }
      rewrite Hp. rewrite !(Qmult_comm u). apply Qmult_le_compat_r; lra. }
    assert (A1 : (m - s) * pow2 e <= (1 # 2) * pow2 e) by (apply Qmult_le_compat_r; lra).
    assert (A2 : (s - m) * pow2 e <= (1 # 2) * pow2 e) by (apply Qmult_le_compat_r; lra).
    split; lra.
Qed.

(** A double is a multiple of the smallest subnormal. *)
Lemma round_pos_multiple (a : Q) :
  0 < a -> exists N, round_pos a == inject_Z N * pow2 (-1074).
Proof.
  intros Ha. destruct (exponent_ge a) as [He _].
  exists (round_half_even (a / pow2 (exponent a)) * 2 ^ (exponent a + 1074))%Z.
  unfold round_pos. rewrite inject_Z_mult, inject_Z_pow2 by lia.
  rewrite <- Qmult_assoc, <- pow2_add.
  by replace (exponent a + 1074 + -1074)%Z with (exponent a) by lia.
Qed.

Lemma abs_cases (x : Q) : (0 <= x /\ abs x = x) \/ (x < 0 /\ abs x = - x).
Proof.
  unfold abs. destruct (Qle_bool 0 x) eqn:E.
  - left. by apply Qle_bool_iff in E.
  - right. split; [|done]. apply Qnot_le_lt. intros H. apply Qle_bool_iff in H. congruence.
Qed.

(** Rounding any number. *)

Lemma round53_pos (x : Q) : 0 < x -> round53 x == round_pos x.
Proof.
  intros H. unfold round53.
  destruct (Qcompare_spec x 0) as [E|E|E]; [lra | lra | apply Qred_correct].
Qed.

Lemma round53_neg (x : Q) : x < 0 -> round53 x == - round_pos (- x).
Proof.
  intros H. unfold round53.
  destruct (Qcompare_spec x 0) as [E|E|E]; [lra | apply Qred_correct | lra].
Qed.

Lemma round53_zero (x : Q) : x == 0 -> round53 x == 0.
Proof.
  intros H. unfold round53.
  destruct (Qcompare_spec x 0) as [E|E|E]; [done | lra | lra].
Qed.

Lemma round53_cases (x : Q) :
  (x == 0 /\ round53 x == 0) \/
  (0 < x /\ round53 x == round_pos x /\ 0 <= round_pos x) \/
  (x < 0 /\ round53 x == - round_pos (- x) /\ 0 <= round_pos (- x)).
Proof.
  destruct (Q_dec x 0) as [[H|H]|H].
  - right. right. split; [done|]. split; [by apply round53_neg|].
    apply round_pos_nonneg. lra.
  - right. left. split; [done|]. split; [by apply round53_pos|].
    by apply round_pos_nonneg.
  - left. split; [done | by apply round53_zero].
Qed.

Lemma round53_comp (x y : Q) : x == y -> round53 x == round53 y.
Proof.
  intros Hxy.
  destruct (round53_cases x) as [[Hx Rx]|[(Hx & Rx & _)|(Hx & Rx & _)]].
  - rewrite Rx. symmetry. apply round53_zero. lra.
  - rewrite Rx, (round53_pos y) by lra. by apply round_pos_comp.
  - rewrite Rx, (round53_neg y) by lra.
    apply Qopp_comp. apply round_pos_comp; lra.
Qed.

Lemma round53_le (x y : Q) : x <= y -> round53 x <= round53 y.
Proof.
  intros Hxy.
  destruct (round53_cases x) as [[Hx Rx]|[(Hx & Rx & Px)|(Hx & Rx & Px)]];
    destruct (round53_cases y) as [[Hy Ry]|[(Hy & Ry & Py)|(Hy & Ry & Py)]];
    rewrite Rx, Ry; try lra.
  - by apply round_pos_le.
  - assert (round_pos (- y) <= round_pos (- x)) by (apply round_pos_le; lra). lra.
Qed.

Lemma round53_idempotent (x : Q) : round53 (round53 x) == round53 x.
Proof.
  assert (Hzero : forall y, y == 0 -> round53 y == y).
  { intros y Hy. rewrite (round53_zero y Hy). lra. }
  destruct (round53_cases x) as [[Hx Rx]|[(Hx & Rx & Px)|(Hx & Rx & Px)]].
  - by apply Hzero.
  - destruct (Qle_lt_or_eq _ _ Px) as [Hpos|Hz]; [|apply Hzero; lra].
    pose proof (round53_comp _ _ Rx) as A1.
    pose proof (round53_pos _ Hpos) as A2.
    pose proof (round_pos_idempotent x Hx Hpos) as A3. lra.
  - destruct (Qle_lt_or_eq _ _ Px) as [Hpos|Hz]; [|apply Hzero; lra].
    pose proof (round53_comp _ _ Rx) as A1.
    assert (A2 : round53 (- round_pos (- x)) == - round_pos (- - round_pos (- x))).
    { apply round53_neg. lra. }
    assert (A3 : round_pos (- - round_pos (- x)) == round_pos (round_pos (- x))).
    { apply round_pos_comp; [lra | ring]. }
    pose proof (round_pos_idempotent (- x) ltac:(lra) Hpos) as A4. lra.
Qed.

Lemma round53_multiple (x : Q) : exists N, round53 x == inject_Z N * pow2 (-1074).
Proof.
  destruct (round53_cases x) as [[Hx Rx]|[(Hx & Rx & Px)|(Hx & Rx & Px)]].
  - exists 0%Z. rewrite Rx. ring.
  - destruct (round_pos_multiple x Hx) as [N HN]. exists N. by rewrite Rx.
  - destruct (round_pos_multiple (- x) ltac:(lra)) as [N HN]. exists (- N)%Z.
    rewrite Rx, HN, inject_Z_opp. ring.
Qed.

Lemma round53_error (x : Q) (N : Z) :
  x == inject_Z N * pow2 (-1074) -> abs (round53 x - x) <= u * abs x.
Proof.
  intros HN.
  destruct (round53_cases x) as [[Hx Rx]|[(Hx & Rx & Px)|(Hx & Rx & Px)]].
  - destruct (abs_cases (round53 x - x)) as [[_ ->]|[_ ->]];
      destruct (abs_cases x) as [[_ ->]|[_ ->]]; rewrite Rx, Hx; lra.
  - destruct (round_pos_error x N Hx HN) as [E1 E2].
    destruct (abs_cases (round53 x - x)) as [[_ ->]|[_ ->]];
      destruct (abs_cases x) as [[? ->]|[? ->]]; rewrite Rx; lra.
  - assert (HN' : - x == inject_Z (- N) * pow2 (-1074)).
    { rewrite inject_Z_opp, HN. ring. }
    destruct (round_pos_error (- x) (- N) ltac:(lra) HN') as [E1 E2].
    assert (Eu : u * - x == - (u * x)) by ring.
    destruct (abs_cases (round53 x - x)) as [[_ ->]|[_ ->]];
      destruct (abs_cases x) as [[? ->]|[? ->]]; rewrite Rx; lra.
Qed.

Lemma multiple_plus (a b : Q) (Na Nb : Z) :
  a == inject_Z Na * pow2 (-1074) -> b == inject_Z Nb * pow2 (-1074) ->
  a + b == inject_Z (Na + Nb) * pow2 (-1074) /\
  a - b == inject_Z (Na - Nb) * pow2 (-1074).
Proof.
  intros Ha Hb. unfold Z.sub. rewrite !inject_Z_plus, inject_Z_opp, Ha, Hb. split; ring.
Qed.

End Rounding.

(** *** The laws of the arithmetic *)

Lemma exact_faithful : Doubles.faithful Doubles.exact.
Proof.
  split; cbn [Doubles.double Doubles.add Doubles.sub Doubles.exact]; try done.
  - intros a b _ _.
    destruct (abs_cases (a + b - (a + b))) as [[_ ->]|[H _]]; [|lra].
    destruct (abs_cases (a + b)) as [[H ->]|[H ->]]; pose proof (pow2_pos (-53)) as Hu;
      fold Doubles.u in Hu.
    + assert (0 <= Doubles.u * (a + b)) by (apply Qmult_le_0_compat; lra). lra.
    + assert (0 <= Doubles.u * - (a + b)) by (apply Qmult_le_0_compat; lra). lra.
  - intros a b _ _.
    destruct (abs_cases (a - b - (a - b))) as [[_ ->]|[H _]]; [|lra].
    destruct (abs_cases (a - b)) as [[H ->]|[H ->]]; pose proof (pow2_pos (-53)) as Hu;
      fold Doubles.u in Hu.
    + assert (0 <= Doubles.u * (a - b)) by (apply Qmult_le_0_compat; lra). lra.
    + assert (0 <= Doubles.u * - (a - b)) by (apply Qmult_le_0_compat; lra). lra.
Qed.

Lemma binary64_faithful : Doubles.faithful Doubles.binary64.
Proof.
  split; cbn [Doubles.double Doubles.add Doubles.sub Doubles.binary64].
  - intros x y Hxy Hx. pose proof (round53_comp x y Hxy). lra.
  - by apply round53_zero.
  - intros a b _ _. apply round53_idempotent.
  - intros a b _ _. apply round53_idempotent.
  - done.
  - done.
  - intros a b c d H. by apply round53_le.
  - intros a b c d H. by apply round53_le.
  - intros a b Ha Hb.
    destruct (round53_multiple a) as [Na HNa]. destruct (round53_multiple b) as [Nb HNb].
    rewrite Ha in HNa. rewrite Hb in HNb.
    destruct (multiple_plus a b Na Nb HNa HNb) as [Hs _].
    exact (round53_error _ _ Hs).
  - intros a b Ha Hb.
    destruct (round53_multiple a) as [Na HNa]. destruct (round53_multiple b) as [Nb HNb].
    rewrite Ha in HNa. rewrite Hb in HNb.
    destruct (multiple_plus a b Na Nb HNa HNb) as [_ Hs].
    exact (round53_error _ _ Hs).
Qed.

Lemma u_bounds : 0 < Doubles.u /\ Doubles.u < 1.
Proof. split; reflexivity. Qed.

(** A rounded difference has the sign of the exact one, and is within [u]
    of it. *)
Lemma sub_sign (ar : Doubles.arithmetic) (a b : Q) :
  Doubles.faithful ar -> Doubles.double ar a -> Doubles.double ar b ->
  (a <= b -> 0 <= Doubles.sub ar b a) /\
  (a < b -> 0 < Doubles.sub ar b a) /\
  Doubles.sub ar b a <= b - a + Doubles.u * Doubles.abs (b - a).
Proof.
  intros F Ha Hb. pose proof (Doubles.sub_error ar F b a Hb Ha) as He.
  destruct u_bounds as [Hu0 Hu1].
  set (s := Doubles.sub ar b a) in *. set (v := Doubles.u) in *.
  assert (Hboth : s - (b - a) <= v * Doubles.abs (b - a) /\
                  b - a - s <= v * Doubles.abs (b - a)).
  { destruct (abs_cases (s - (b - a))) as [[H1 E1]|[H1 E1]]; rewrite E1 in He; lra. }
  clear He. destruct Hboth as [Hup Hlow].
  split; [|split; [|lra]]; intros Hab;
    (destruct (abs_cases (b - a)) as [[H2 E2]|[H2 E2]]; [|lra]); rewrite E2 in *.
  - assert (v * (b - a) <= 1 * (b - a)) by (apply Qmult_le_compat_r; lra). lra.
  - assert (v * (b - a) < 1 * (b - a)) by (apply Qmult_lt_compat_r; lra). lra.
Qed.

(** Adding a number that is not negative does not go below the number
    added to. *)
Lemma add_ge (ar : Doubles.arithmetic) (a s : Q) :
  Doubles.faithful ar -> Doubles.double ar a -> 0 <= s -> a <= Doubles.add ar a s.
Proof.
  intros F Ha Hs.
  assert (H0 : Doubles.add ar a 0 == a + 0).
  { apply (Doubles.add_exact ar F). apply (Doubles.double_comp ar F a); [ring | done]. }
  assert (Hm : Doubles.add ar a 0 <= Doubles.add ar a s).
  { apply (Doubles.add_monotone ar F). lra. }
  lra.
Qed.

Lemma js_or_double (ar : Doubles.arithmetic) (x : option Q) (d : Q) :
  (forall q, x = Some q -> Doubles.double ar q) -> Doubles.double ar d ->
  Doubles.double ar (x |? d).
Proof.
  intros Hx Hd. destruct x as [q|]; [|done].
  unfold js_or. destruct (Qeq_bool q 0); [done | by apply Hx].
Qed.

Lemma Qmin_double (ar : Doubles.arithmetic) (a b : Q) :
  Doubles.double ar a -> Doubles.double ar b -> Doubles.double ar (Qmin a b).
Proof.
  intros Ha Hb. unfold Qmin, GenericMinMax.gmin. by destruct (a ?= b).
Qed.

(** With exact operations the constants are those of the exact model. *)
Lemma exact_resolve (mainDuration : Q) (meta : list (option Metadata.t)) (index : nat) :
  Doubles.Timestamp_resolve Doubles.exact mainDuration meta index
  = Timestamp.resolve mainDuration meta index /\
  Doubles.Submix_resolve Doubles.exact mainDuration meta index
  = Submix.resolve mainDuration meta index.
Proof. split; reflexivity. Qed.

(** In doubles a short duration is absorbed by a larger timestamp: for the
    entry [{timestamp: 5, duration: 1e-17}] and a main track of 30 s,
    index.js writes [atrim=5:5], a span of zero, where the exact sum would
    give a positive one. *)
Example binary64_absorbs :
  let tiny := Doubles.round53 1e-17 in
  let m := {| Metadata.timestamp := Some 5; Metadata.duration := Some tiny;
              Metadata.volume := None |} in
  0 < tiny /\
  Doubles.Submix_endTime Doubles.binary64 30 m == 5 /\
  spanSeconds (Doubles.Submix_resolve Doubles.binary64 30 [Some m] 0) == 0 /\
  0 < spanSeconds (Submix.resolve 30 [Some m] 0).
Proof. by vm_compute. Qed.

(** C2 (amended): for numeric or missing metadata fields that are finite
    doubles, with the operations of JavaScript rounded to doubles, every
    placement of both metadata servers keeps the raw offset, unclamped (0
    when missing), so the offset is not negative when the raw offset is not.
    In part_000 the placement ends within the main track up to the rounding
    of one subtraction ([startOffset + span <= mainDuration + ε] with
    [ε = u * |mainDuration - startOffset|], [u = 2^-53]); in index.js the end
    written to [atrim] never exceeds the main duration, and the span
    [endTime - startTime] it computes ends within [u * |endTime - startTime|]
    of that end.  When moreover the main duration is positive, the raw
    offset is not negative and below it, and the raw duration is not
    negative, both placements end by [mainDuration * (1 + u)], the span of
    part_000 is positive, and the span of index.js is not negative (it can
    be zero, see [binary64_absorbs]). *)
Theorem C2_resolver_bounds (ar : Doubles.arithmetic) (mainDuration : Q)
    (meta : list (option Metadata.t)) (index : nat) :
  Doubles.faithful ar ->
  Doubles.doubles ar mainDuration (entry meta index) ->
  let m := entry meta index in
  let t := Metadata.timestamp m |? 0 in
  let p := Doubles.Timestamp_resolve ar mainDuration meta index in
  let p' := Doubles.Submix_resolve ar mainDuration meta index in
  let endTime := Doubles.Submix_endTime ar mainDuration m in
  (startOffsetSeconds p = t /\ startOffsetSeconds p' = t) /\
  ((forall ts, Metadata.timestamp m = Some ts -> 0 <= ts) ->
     0 <= startOffsetSeconds p /\ 0 <= startOffsetSeconds p') /\
  startOffsetSeconds p + spanSeconds p
    <= mainDuration + Doubles.u * Doubles.abs (mainDuration - t) /\
  endTime <= mainDuration /\
  startOffsetSeconds p' + spanSeconds p'
    <= endTime + Doubles.u * Doubles.abs (endTime - t) /\
  (0 < mainDuration ->
   (forall ts, Metadata.timestamp m = Some ts -> 0 <= ts /\ ts < mainDuration) ->
   (forall d, Metadata.duration m = Some d -> 0 <= d) ->
     0 < spanSeconds p /\
     0 <= spanSeconds p' /\
     t <= endTime /\
     startOffsetSeconds p + spanSeconds p <= mainDuration + Doubles.u * mainDuration /\
     startOffsetSeconds p' + spanSeconds p' <= mainDuration + Doubles.u * mainDuration).
Proof.
  intros F (HD & Hts & Hdur) m t p p' endTime.
  assert (Ht : Doubles.double ar t).
  { apply js_or_double; [exact Hts | apply (Doubles.double_0 ar F)]. }
  assert (Hsd : Doubles.double ar (Doubles.Submix_specifiedDuration ar mainDuration m)).
  { apply js_or_double; [exact Hdur|]. by apply (Doubles.double_sub ar F). }
  assert (Hend : Doubles.double ar endTime).
  { apply Qmin_double; [|exact HD]. by apply (Doubles.double_add ar F). }
  destruct (sub_sign ar t mainDuration F Ht HD) as (Hs0 & Hs1 & Hs2).
  destruct (sub_sign ar t endTime F Ht Hend) as (He0 & _ & He2).
  destruct u_bounds as [Hu0 Hu1].
  assert (Hle : endTime <= mainDuration) by apply Q.le_min_r.
  assert (Hspan : spanSeconds p <= Doubles.sub ar mainDuration t) by apply Q.le_min_r.
  change (spanSeconds p') with (Doubles.sub ar endTime t) in *.
  change (startOffsetSeconds p) with t. change (startOffsetSeconds p') with t.
  assert (Hnonneg : (forall ts, Metadata.timestamp m = Some ts -> 0 <= ts) -> 0 <= t).
  { intros H. subst t. split_or (Metadata.timestamp m) 0; try lra. by apply H. }
  split; [done|]. split; [by auto|]. split; [lra|]. split; [done|]. split; [lra|].
  intros Hmain Hrange Hd.
  assert (Ht0 : 0 <= t /\ t < mainDuration).
  { subst t. split_or (Metadata.timestamp m) 0; try lra. by apply Hrange. }
  assert (Hsd0 : 0 <= Doubles.Submix_specifiedDuration ar mainDuration m).
  { unfold Doubles.Submix_specifiedDuration, parseFloat.
    change (Doubles.Submix_startTime m) with t.
    split_or (Metadata.duration m) (Doubles.sub ar mainDuration t); try lra.
    by apply Hd. }
  assert (Hte : t <= endTime).
  { subst endTime. unfold Doubles.Submix_endTime. change (Doubles.Submix_startTime m) with t.
    pose proof (add_ge ar t _ F Ht Hsd0). name_min. lra. }
  assert (Habs : Doubles.abs (mainDuration - t) = mainDuration - t).
  { destruct (abs_cases (mainDuration - t)) as [[_ E]|[H _]]; [done | lra]. }
  assert (Habs' : Doubles.abs (endTime - t) = endTime - t).
  { destruct (abs_cases (endTime - t)) as [[_ E]|[H _]]; [done | lra]. }
  rewrite Habs in Hs2. rewrite Habs' in He2.
  assert (Doubles.u * (mainDuration - t) <= Doubles.u * mainDuration).
  { rewrite !(Qmult_comm Doubles.u). apply Qmult_le_compat_r; lra. }
  assert (Doubles.u * (endTime - t) <= Doubles.u * mainDuration).
  { rewrite !(Qmult_comm Doubles.u). apply Qmult_le_compat_r; lra. }
  split; [|split; [by apply He0|split; [done|split; lra]]].
  change (spanSeconds p) with (Doubles.Timestamp_duration ar mainDuration m).
  unfold Doubles.Timestamp_duration. fold t.
  split_or (Metadata.duration m) mainDuration; name_min;
    try (assert (0 <= q) by eauto); lra.
Qed.

Lemma C2_resolver_bounds_witness :
  let tiny := Doubles.round53 1e-17 in
  let m := {| Metadata.timestamp := Some 5; Metadata.duration := Some tiny;
              Metadata.volume := Some 0.5 |} in
  let p := Doubles.Timestamp_resolve Doubles.binary64 30 [Some m] 0 in
  let p' := Doubles.Submix_resolve Doubles.binary64 30 [Some m] 0 in
  (0 <= startOffsetSeconds p /\ 0 < spanSeconds p /\
   startOffsetSeconds p + spanSeconds p <= 30 + Doubles.u * 30) /\
  (0 <= startOffsetSeconds p' /\ 0 <= spanSeconds p' /\
   startOffsetSeconds p' + spanSeconds p' <= 30 + Doubles.u * 30).
Proof.
  intros tiny m p p'.
  assert (Htiny : Doubles.double Doubles.binary64 tiny /\ 0 <= tiny).
  { split; by vm_compute. }
  clearbody tiny. destruct Htiny as [Htiny Hpos].
  assert (Hd : Doubles.doubles Doubles.binary64 30 (entry [Some m] 0)).
  { split; [by vm_compute|]. split; intros q [= <-]; [by vm_compute | exact Htiny]. }
  destruct (C2_resolver_bounds Doubles.binary64 30 [Some m] 0 binary64_faithful Hd)
    as (_ & Hoff & _ & _ & _ & Hspan).
  assert (H0 : 0 < 30) by lra.
  assert (H1 : forall t, Metadata.timestamp (entry [Some m] 0) = Some t -> 0 <= t /\ t < 30).
  { intros t [= <-]. lra. }
  assert (H2 : forall d, Metadata.duration (entry [Some m] 0) = Some d -> 0 <= d).
  { intros d [= <-]. exact Hpos. }
  destruct (Hoff (fun t Ht => proj1 (H1 t Ht))) as [Ho Ho'].
  destruct (Hspan H0 H1 H2) as (Hs & Hs' & _ & Hb & Hb').
  repeat split; assumption.
Defined.

(** ** C6 and C10: the resolved gain *)

Lemma Submix_volume_eq (m : Metadata.t) : Submix.volume m = Timestamp.volume m.
Proof. reflexivity. Qed.

(** C6, as stated, fails: a raw volume of -0.5 is resolved to the gain
    -0.5, which is not in (0, 1]. *)
Lemma C6_counterexample :
  let m := {| Metadata.timestamp := None; Metadata.duration := None;
              Metadata.volume := Some (-0.5) |} in
  ~ (0 < Timestamp.volume m /\ Timestamp.volume m <= 1) /\
  ~ (0 < Submix.volume m /\ Submix.volume m <= 1).
Proof. vm_compute. split; intros [H _]; discriminate H. Qed.

(** C6 (amended): in both metadata servers the resolved gain never exceeds
    1; an absent volume resolves to 1 and a raw volume above 1 is clamped to
    1; a raw volume that is not negative resolves into (0, 1]; there is no
    lower clamp, a negative raw volume is kept as it is. *)
Theorem C6_gain_range (m : Metadata.t) :
  Submix.volume m = Timestamp.volume m /\
  Timestamp.volume m <= 1 /\
  (Metadata.volume m = None -> Timestamp.volume m == 1) /\
  (forall q, Metadata.volume m = Some q -> 1 < q -> Timestamp.volume m == 1) /\
  (forall q, Metadata.volume m = Some q -> 0 <= q ->
     0 < Timestamp.volume m /\ Timestamp.volume m <= 1) /\
  (forall q, Metadata.volume m = Some q -> q < 0 -> Timestamp.volume m == q).
Proof.
  split; [reflexivity|]. split; [apply volume_le_1|].
  unfold Timestamp.volume. split; [|split; [|split]].
  - intros E. rewrite E. simpl. name_min. lra.
  - intros q E Hq. rewrite E. split_or (Some q) 1; simplify_eq; name_min; lra.
  - intros q E Hq. rewrite E. split; [|apply Q.le_min_r].
    split_or (Some q) 1; simplify_eq; name_min; lra.
  - intros q E Hq. rewrite E. split_or (Some q) 1; simplify_eq; name_min; lra.
Qed.

Lemma C6_gain_range_witness :
  let vol v := {| Metadata.timestamp := None; Metadata.duration := None;
                  Metadata.volume := v |} in
  Timestamp.volume (vol None) == 1 /\
  Timestamp.volume (vol (Some 2.5)) == 1 /\
  (0 < Timestamp.volume (vol (Some 0.5)) /\ Timestamp.volume (vol (Some 0.5)) <= 1) /\
  Timestamp.volume (vol (Some (-0.5))) == -0.5.
Proof.
  intros vol.
  destruct (C6_gain_range (vol None)) as (_ & _ & Habsent & _).
  destruct (C6_gain_range (vol (Some 2.5))) as (_ & _ & _ & Habove & _).
  destruct (C6_gain_range (vol (Some 0.5))) as (_ & _ & _ & _ & Hin & _).
  destruct (C6_gain_range (vol (Some (-0.5)))) as (_ & _ & _ & _ & _ & Hbelow).
  split; [|split; [|split]].
  - by apply Habsent.
  - apply (Habove 2.5); [done | lra].
  - apply (Hin 0.5); [done | lra].
  - apply (Hbelow (-0.5)); [done | lra].
Defined.

(** C10, as stated, fails: the volume field holds whatever [JSON.parse]
    returned, and the string ["0"] is truthy, so [||] keeps it, and
    [Math.min] converts it to the number 0: the clip is placed with gain 0. *)
Lemma C10_counterexample :
  Coercion.truthy (Some (Process.JStr "0")) = true /\
  Coercion.volume Coercion.number_of_zero (fun _ => None) (Some (Process.JStr "0")) = Some 0.
Proof. split; by vm_compute. Qed.

(** C10 (amended): whatever [ToNumber] makes of strings, arrays and objects,
    a volume that is the number 0, like an absent one and like every other
    falsy value, resolves to the gain 1, since [||] replaces it before
    [Math.min] is taken; a volume that is a number resolves to the gain of
    the numeric model of both metadata servers, which is never 0; and the
    gain is 0 only for a non-empty string, an array or an object that
    [Math.min] converts to 0. *)
Theorem C10_zero_volume_is_full_volume (StringToNumber : string -> option Q)
    (ObjectToNumber : Process.json -> option Q) :
  let volume := Coercion.volume StringToNumber ObjectToNumber in
  (volume (Some (Process.JNum 0)) = Some 1 /\
   volume None = Some 1 /\
   forall v, Coercion.truthy v = false -> volume v = Some 1) /\
  (forall q ts dur,
     let m := {| Metadata.timestamp := ts; Metadata.duration := dur;
                 Metadata.volume := Some q |} in
     volume (Some (Process.JNum q)) = Some (Timestamp.volume m) /\
     volume (Some (Process.JNum q)) = Some (Submix.volume m) /\
     ~ Timestamp.volume m == 0) /\
  (forall v g, volume v = Some g -> g == 0 ->
     (exists s, v = Some (Process.JStr s) /\ s <> "" /\
                exists n, StringToNumber s = Some n /\ n == 0) \/
     (exists w n, v = Some w /\ ObjectToNumber w = Some n /\ n == 0 /\
                  ((exists items, w = Process.JArr items) \/
                   (exists fields, w = Process.JObj fields)))).
Proof.
  intros volume. subst volume. split; [|split].
  - split; [reflexivity|]. split; [reflexivity|].
    intros v Hv. unfold Coercion.volume, Coercion.or. by rewrite Hv.
  - intros q ts dur m.
    split; [|split; [|apply volume_nonzero]];
      unfold Coercion.volume, Coercion.or, Coercion.truthy, Coercion.Math_min,
        Timestamp.volume, Submix.volume, js_or; subst m; cbn [Metadata.volume];
      by destruct (Qeq_bool q 0).
  - intros v g Hv Hg.
    assert (Hmin : forall x, Qmin x 1 == 0 -> x == 0).
    { intros x. name_min. lra. }
    unfold Coercion.volume, Coercion.or, Coercion.Math_min in Hv.
    destruct v as [[|b|q|s|items|fields]|]; cbn [Coercion.truthy Coercion.ToNumber] in Hv.
    + injection Hv as <-. by vm_compute in Hg.
    + destruct b; cbn [Coercion.ToNumber negb] in Hv; injection Hv as <-; by vm_compute in Hg.
    + destruct (Qeq_bool q 0) eqn:E; cbn [negb Coercion.ToNumber] in Hv; injection Hv as <-.
      * by vm_compute in Hg.
      * apply Hmin, Qeq_bool_iff in Hg. congruence.
    + destruct (String.eqb_spec s "") as [->|Hs]; cbn [negb Coercion.ToNumber] in Hv.
      * injection Hv as <-. by vm_compute in Hg.
      * destruct (StringToNumber s) as [n|] eqn:En; [|discriminate].
        injection Hv as <-. left. exists s. split; [done|]. split; [done|].
        exists n. split; [done|]. by apply Hmin.
    + destruct (ObjectToNumber (Process.JArr items)) as [n|] eqn:En; [|discriminate].
      injection Hv as <-. right. exists (Process.JArr items), n.
      split; [done|]. split; [done|]. split; [by apply Hmin|]. left. by eexists.
    + destruct (ObjectToNumber (Process.JObj fields)) as [n|] eqn:En; [|discriminate].
      injection Hv as <-. right. exists (Process.JObj fields), n.
      split; [done|]. split; [done|]. split; [by apply Hmin|]. right. by eexists.
    + injection Hv as <-. by vm_compute in Hg.
Qed.

(** ** C3: the order of the stages in a clip's chain *)

Lemma lookup_flat_map_pair {B : Type} (f g : nat -> B) (n : nat) :
  forall k i, (i < n)%nat ->
    flat_map (fun j => [f j; g j]) (seq k n) !! (2 * i)%nat = Some (f (k + i)%nat) /\
    flat_map (fun j => [f j; g j]) (seq k n) !! (2 * i + 1)%nat = Some (g (k + i)%nat).
Proof.
  induction n as [|n IH]; intros k i Hi; [lia|].
  destruct i as [|i]; simpl.
  - by rewrite Nat.add_0_r.
  - replace (i + S (i + 0))%nat with (S (2 * i)) by lia.
    replace (i + S (i + 0) + 1)%nat with (S (2 * i + 1)) by lia.
    simpl. replace (k + S i)%nat with (S k + i)%nat by lia.
    replace (i + (i + 0))%nat with (2 * i)%nat by lia.
    apply IH. lia.
Qed.

Lemma length_flat_map_pair {B : Type} (f g : nat -> B) (n k : nat) :
  length (flat_map (fun j => [f j; g j]) (seq k n)) = (2 * n)%nat.
Proof.
  revert k. induction n as [|n IH]; intros k; simpl; [done|]. rewrite IH. lia.
Qed.

Lemma Submix_filter_graph_eq (mainDuration : Q) (files : list File)
    (meta : list (option Metadata.t)) :
  Submix.filter_graph mainDuration files meta
  = flat_map (fun i => [Submix.trim_chain mainDuration meta i; Submix.delay_chain meta i])
      (seq 0 (length files)) ++
    (if (0 <? length files)%nat then
       [{| ins := map (fun i => out (Submix.delay_chain meta i)) (seq 0 (length files));
           filters := [Amix (length files) (Some dropout_transition_0)];
           out := "bgmix" |};
        {| ins := ["0:a"]; filters := [Volume 1.0]; out := "main" |};
        {| ins := ["main"; "bgmix"]; filters := [Amix 2 (Some normalize_0)]; out := "out" |}]
     else [{| ins := ["0:a"]; filters := [Volume 1.0]; out := "out" |}]).
Proof.
  unfold Submix.filter_graph, forEach.
  rewrite (forEach_from_push _
             (fun i => [Submix.trim_chain mainDuration meta i; Submix.delay_chain meta i])
             (fun i => [out (Submix.delay_chain meta i)])) by done.
  rewrite flat_map_singleton. simpl. rewrite length_map, length_seq.
  by destruct (0 <? length files)%nat.
Qed.

(** The third server of part_000 pushes the same two chains per clip, after
    the main track's [volume=1], and mixes them all at once. *)
Lemma Fade_filter_graph_eq (mainDuration : Q) (files : list File)
    (meta : list (option Metadata.t)) :
  Fade.filter_graph mainDuration files meta
  = {| ins := ["0:a"]; filters := [Volume 1]; out := "mainAudio" |} ::
    flat_map (fun i => [Submix.trim_chain mainDuration meta i; Submix.delay_chain meta i])
      (seq 0 (length files)) ++
    [{| ins := "mainAudio" :: map (fun i => out (Submix.delay_chain meta i))
                                (seq 0 (length files));
        filters := [Amix (S (length files)) (Some dropout_transition_0); Aformat];
        out := "out" |}].
Proof.
  unfold Fade.filter_graph, Fade.clip_body, forEach.
  rewrite (forEach_from_push _
             (fun i => [Submix.trim_chain mainDuration meta i; Submix.delay_chain meta i])
             (fun i => [out (Submix.delay_chain meta i)])) by done.
  rewrite flat_map_singleton. simpl. by rewrite length_map, length_seq.
Qed.

(** C3, as stated, fails: the first server of part_000 (line 117) writes
    [volume] before [atrim], so its chain runs Gain, Trim, Delay. *)
Lemma C3_counterexample :
  exists c,
    Timestamp.filter_graph 30 [{| originalname := "a.aac"; path := "uploads/a.aac" |}] []
      !! 0%nat = Some c /\
    stages (filters c) = [Gain; Trim; Delay] /\
    stages (filters c) <> [Trim; Gain; Delay] /\
    stages (filters c) <> [Trim; Gain; FadeOut; Delay].
Proof. eexists. split; [reflexivity|]. by vm_compute. Qed.

(** C3 (amended): for every clip, index.js (lines 119-120) emits Trim, Gain,
    FadeOut, Delay in this order, the fade always present, 0.5 s long and
    placed at [span - 0.5]; the first server of part_000 (line 117) emits
    Gain, Trim, Delay and no fade.  In both the delay comes last, is
    [startOffset * 1000] milliseconds and is the same on both channels. *)
Theorem C3_stage_order (mainDuration : Q) (files : list File)
    (meta : list (option Metadata.t)) (index : nat) :
  (index < length files)%nat ->
  let p := Submix.resolve mainDuration meta index in
  let q := Timestamp.resolve mainDuration meta index in
  (exists c1 c2 stop,
     Submix.filter_graph mainDuration files meta !! (2 * index)%nat = Some c1 /\
     Submix.filter_graph mainDuration files meta !! (2 * index + 1)%nat = Some c2 /\
     ins c2 = [out c1] /\
     stages (filters c1 ++ filters c2) = [Trim; Gain; FadeOut; Delay] /\
     filters c1 = [Atrim (startOffsetSeconds p) stop; Asetpts; Volume (gain p);
                   AfadeOut (spanSeconds p - 0.5) 0.5] /\
     stop == startOffsetSeconds p + spanSeconds p /\
     filters c2 = [Adelay [startOffsetSeconds p * 1000; startOffsetSeconds p * 1000]]) /\
  (exists c,
     Timestamp.filter_graph mainDuration files meta !! index = Some c /\
     stages (filters c) = [Gain; Trim; Delay] /\
     filters c = [Volume (gain q); AtrimDuration (spanSeconds q); Asetpts;
                  Adelay [startOffsetSeconds q * 1000; startOffsetSeconds q * 1000]]).
Proof.
  intros Hi p q. split.
  - exists (Submix.trim_chain mainDuration meta index), (Submix.delay_chain meta index),
      (Submix.endTime mainDuration (entry meta index)).
    rewrite Submix_filter_graph_eq.
    destruct (lookup_flat_map_pair (Submix.trim_chain mainDuration meta)
                (Submix.delay_chain meta) (length files) 0 index Hi) as [H1 H2].
    rewrite !lookup_app_l by (rewrite length_flat_map_pair; lia).
    rewrite H1, H2. repeat split. subst p. simpl. ring.
  - exists (Timestamp.clip_chain mainDuration meta index).
    split; [by apply Timestamp_clip_lookup | done].
Qed.

Lemma C3_stage_order_witness :
  let files := [{| originalname := "a.aac"; path := "uploads/a.aac" |}] in
  let meta := [Some {| Metadata.timestamp := Some 5; Metadata.duration := Some 3;
                       Metadata.volume := Some 0.5 |}] in
  (exists c1 c2,
     Submix.filter_graph 30 files meta !! 0%nat = Some c1 /\
     Submix.filter_graph 30 files meta !! 1%nat = Some c2 /\
     stages (filters c1 ++ filters c2) = [Trim; Gain; FadeOut; Delay]) /\
  (exists c,
     Timestamp.filter_graph 30 files meta !! 0%nat = Some c /\
     stages (filters c) = [Gain; Trim; Delay]).
Proof.
  intros files meta.
  destruct (C3_stage_order 30 files meta 0 ltac:(simpl; lia))
    as [(c1 & c2 & stop & H1 & H2 & _ & Hs & _) (c & H & Hs' & _)].
  split.
  - exists c1, c2. repeat split; assumption.
  - exists c. split; assumption.
Defined.

(** ** C4: the output duration of the first server of part_000 *)

(** C4: whenever the main track is probed, for every list of clips and of
    metadata, the empty ones included, the command is run with its output
    duration set to exactly [mainDuration], and the last chain of its graph
    is the mix with [duration=first] followed by a trim to exactly
    [mainDuration], labelled [out], which is the label mapped to the
    output. *)
Theorem C4_match_main_duration (ffprobe : string -> option Q) (mainAudioPath : string)
    (files : list File) (meta : list (option Metadata.t)) (outputPath : string)
    (mainDuration : Q) :
  ffprobe mainAudioPath = Some mainDuration ->
  exists c,
    Timestamp.processAudio ffprobe mainAudioPath files meta outputPath = Run c /\
    output_duration c = Some mainDuration /\
    map_output c = "out" /\
    last (complexFilter c)
      = Some {| ins := "0:a" :: map delayed_label (seq 0 (length files));
                filters := [Amix (S (length files)) (Some duration_first);
                            AtrimDuration mainDuration];
                out := "out" |} /\
    (files = [] ->
       complexFilter c
       = [{| ins := ["0:a"];
             filters := [Amix 1 (Some duration_first); AtrimDuration mainDuration];
             out := "out" |}]).
Proof.
  intros Hprobe. unfold Timestamp.processAudio. rewrite Hprobe.
  eexists. split; [reflexivity|]. simpl.
  split; [done|]. split; [done|]. split.
  - rewrite Timestamp_filter_graph_eq. by rewrite last_snoc.
  - by intros ->.
Qed.

Lemma C4_match_main_duration_witness :
  exists c,
    Timestamp.processAudio (fun _ => Some 30.0) "uploads/main.aac" [] [] "public/main.aac"
      = Run c /\
    output_duration c = Some 30.0 /\
    complexFilter c
    = [{| ins := ["0:a"];
          filters := [Amix 1 (Some duration_first); AtrimDuration 30.0];
          out := "out" |}].
Proof.
  destruct (C4_match_main_duration (fun _ => Some 30.0) "uploads/main.aac" [] []
              "public/main.aac" 30.0 eq_refl) as (c & Hrun & Hdur & _ & _ & Hempty).
  exists c. split; [exact Hrun|]. split; [exact Hdur|]. by apply Hempty.
Defined.

(** ** C5: the graph is a function of the placements, in index order *)

Lemma Timestamp_clip_chain_resolve (mainDuration : Q) (meta meta' : list (option Metadata.t))
    (i : nat) :
  Timestamp.resolve mainDuration meta i = Timestamp.resolve mainDuration meta' i ->
  Timestamp.clip_chain mainDuration meta i = Timestamp.clip_chain mainDuration meta' i.
Proof.
  unfold Timestamp.resolve, Timestamp.clip_chain, Timestamp.delay.
  intros [= Hstart Hgain Hspan]. by rewrite Hstart, Hgain, Hspan.
Qed.

Lemma Stinger_forEach (rng : Type) (Math_random : rng -> Q * rng) (mainDuration : Q)
    (l : list string) :
  forall (k : nat) (fc : list chain) (mix : list string) (g : rng),
    (forEach_from (Stinger.clip_body rng Math_random mainDuration) l k (fc, mix, g)).1.2
    = mix ++ map delayed_label (seq k (length l)).
Proof.
  induction l as [|x l IH]; intros k fc mix g; simpl.
  - by rewrite app_nil_r.
  - destruct (Math_random g) as [u g']. rewrite IH. simpl. by rewrite <- app_assoc.
Qed.

Lemma Stinger_forEach_draws (rng : Type) (Math_random : rng -> Q * rng) (mainDuration : Q)
    (l : list string) :
  forall (k : nat) (fc : list chain) (mix : list string) (g : rng),
    (forEach_from (Stinger.clip_body rng Math_random mainDuration) l k (fc, mix, g)).1.1
    = fc ++ zip_with (fun u i => Stinger.clip_chain (Stinger.delay mainDuration u) i)
              (Stinger.draws rng Math_random g (length l)) (seq k (length l)).
Proof.
  induction l as [|x l IH]; intros k fc mix g; cbn [forEach_from length seq Stinger.draws].
  - by rewrite app_nil_r.
  - assert (Hbody : Stinger.clip_body rng Math_random mainDuration x k (fc, mix, g)
                    = (fc ++ [Stinger.clip_chain
                                (Stinger.delay mainDuration (Math_random g).1) k],
                       mix ++ [out (Stinger.clip_chain
                                      (Stinger.delay mainDuration (Math_random g).1) k)],
                       (Math_random g).2)).
    { unfold Stinger.clip_body. by destruct (Math_random g). }
    rewrite Hbody, IH. cbn [zip_with]. by rewrite <- app_assoc.
Qed.

(** The graph of part_001 in closed form: one chain per clip, delayed by the
    draw made for it, then the mix. *)
Lemma Stinger_filter_graph_draws (rng : Type) (Math_random : rng -> Q * rng) (seed : rng)
    (mainDuration : Q) (files : list string) :
  (Stinger.filter_graph rng Math_random seed mainDuration files).1
  = zip_with (fun u i => Stinger.clip_chain (Stinger.delay mainDuration u) i)
      (Stinger.draws rng Math_random seed (length files)) (seq 0 (length files)) ++
    [{| ins := "0:a" :: map delayed_label (seq 0 (length files));
        filters := [Amix (S (length files)) (Some duration_longest)];
        out := "out" |}].
Proof.
  unfold Stinger.filter_graph, forEach.
  pose proof (Stinger_forEach rng Math_random mainDuration files 0 [] ["0:a"] seed) as Hmix.
  pose proof (Stinger_forEach_draws rng Math_random mainDuration files 0 [] ["0:a"] seed) as Hfc.
  destruct (forEach_from _ files 0%nat _) as [[fc mix] g]. simpl in *. subst fc mix.
  by rewrite length_cons, length_map, length_seq.
Qed.

Lemma Stinger_draws_length (rng : Type) (Math_random : rng -> Q * rng) (n : nat) :
  forall g, length (Stinger.draws rng Math_random g n) = n.
Proof. induction n as [|n IH]; intros g; simpl; [done | by rewrite IH]. Qed.

(** C5, as stated, fails: part_001 takes no seed, and the same request (a
    24 s main track, one clip) gives two different graphs in two states of
    the generator of [Math.random], here one that draws 0 and one that
    draws 0.5: the clip is delayed by 0 ms and by 10000 ms. *)
Lemma C5_counterexample :
  let Math_random := fun g : bool => (if g then 0 else 0.5, g) in
  (Stinger.filter_graph bool Math_random true 24 ["a.aac"]).1
  <> (Stinger.filter_graph bool Math_random false 24 ["a.aac"]).1.
Proof. by vm_compute. Qed.

(** C5 (amended): the graph of the first server of part_000 is determined by
    the main duration and the resolved placements (two inputs that resolve to
    the same placements give equal graphs).  In part_000 and in part_001 the
    chain of the clip at index [i] reads the pad [i+1] and writes the label
    [delayed(i+1)], and the last chain is the mix: its [amix] reads the main
    track and then these labels in ascending index order.  part_001 takes no
    seed: its graph is determined by the main duration, the number of clips
    and the values [Math.random] returns, whatever generator returns them. *)
Theorem C5_deterministic_plan :
  (forall (mainDuration : Q) (files files' : list File) (meta meta' : list (option Metadata.t)),
     length files = length files' ->
     (forall i, (i < length files)%nat ->
        Timestamp.resolve mainDuration meta i = Timestamp.resolve mainDuration meta' i) ->
     Timestamp.filter_graph mainDuration files meta
     = Timestamp.filter_graph mainDuration files' meta') /\
  (forall (mainDuration : Q) (files : list File) (meta : list (option Metadata.t)),
     length (Timestamp.filter_graph mainDuration files meta) = S (length files) /\
     (forall i, (i < length files)%nat ->
        let p := Timestamp.resolve mainDuration meta i in
        sourceIndex p = (i + 1)%nat /\
        Timestamp.filter_graph mainDuration files meta !! i
        = Some {| ins := [Graph.source_label (sourceIndex p)];
                  filters := [Volume (gain p); AtrimDuration (spanSeconds p); Asetpts;
                              Adelay [startOffsetSeconds p * 1000;
                                      startOffsetSeconds p * 1000]];
                  out := delayed_label i |}) /\
     Timestamp.filter_graph mainDuration files meta !! length files
     = Some {| ins := "0:a" :: map delayed_label (seq 0 (length files));
               filters := [Amix (S (length files)) (Some duration_first);
                           AtrimDuration mainDuration];
               out := "out" |}) /\
  (forall (rng : Type) (Math_random : rng -> Q * rng) (seed : rng) (mainDuration : Q)
          (files : list string),
     let graph := (Stinger.filter_graph rng Math_random seed mainDuration files).1 in
     length graph = S (length files) /\
     (forall i, (i < length files)%nat ->
        exists u,
          Stinger.draws rng Math_random seed (length files) !! i = Some u /\
          graph !! i
          = Some {| ins := [Graph.source_label (i + 1)];
                    filters := [Volume 0.4; AtrimDuration 4; Asetpts;
                                Adelay [Stinger.delay mainDuration u;
                                        Stinger.delay mainDuration u]];
                    out := delayed_label i |}) /\
     graph !! length files
     = Some {| ins := "0:a" :: map delayed_label (seq 0 (length files));
               filters := [Amix (S (length files)) (Some duration_longest)];
               out := "out" |}) /\
  (forall (rng rng' : Type) (Math_random : rng -> Q * rng) (Math_random' : rng' -> Q * rng')
          (seed : rng) (seed' : rng') (mainDuration : Q) (files files' : list string),
     length files = length files' ->
     Stinger.draws rng Math_random seed (length files)
     = Stinger.draws rng' Math_random' seed' (length files) ->
     (Stinger.filter_graph rng Math_random seed mainDuration files).1
     = (Stinger.filter_graph rng' Math_random' seed' mainDuration files').1).
Proof.
  split; [|split; [|split]].
  - intros d files files' meta meta' Hlen Hres.
    rewrite !Timestamp_filter_graph_eq, <- Hlen. f_equal.
    apply map_ext_in. intros i Hi. apply in_seq in Hi.
    apply Timestamp_clip_chain_resolve, Hres. lia.
  - intros d files meta. rewrite Timestamp_filter_graph_eq.
    split; [|split].
    + rewrite length_app, length_map, length_seq. simpl. lia.
    + intros i Hi p. split; [done|].
      rewrite lookup_app_l by (by rewrite length_map, length_seq).
      by rewrite lookup_map_seq.
    + rewrite lookup_app_r by (by rewrite length_map, length_seq).
      by rewrite length_map, length_seq, Nat.sub_diag.
  - intros rng R seed d files graph. subst graph.
    rewrite Stinger_filter_graph_draws.
    pose proof (Stinger_draws_length rng R (length files) seed) as Hlen.
    set (us := Stinger.draws rng R seed (length files)) in *.
    assert (Hzip : length (zip_with (fun u i => Stinger.clip_chain (Stinger.delay d u) i)
                             us (seq 0 (length files))) = length files).
    { rewrite length_zip_with_l_eq; [done|]. by rewrite length_seq. }
    split; [|split].
    + rewrite length_app, Hzip. simpl. lia.
    + intros i Hi.
      destruct (lookup_lt_is_Some_2 us i) as [u Hu]; [by rewrite Hlen|].
      exists u. split; [done|].
      rewrite lookup_app_l by (by rewrite Hzip).
      rewrite lookup_zip_with, Hu. cbn [mbind option_bind].
      by rewrite lookup_seq_lt.
    + rewrite lookup_app_r by (by rewrite Hzip).
      by rewrite Hzip, Nat.sub_diag.
  - intros rng rng' R R' seed seed' d files files' Hlen Hdraws.
    rewrite !Stinger_filter_graph_draws, <- Hlen. by rewrite Hdraws.
Qed.

Lemma C5_deterministic_plan_witness :
  let a := {| originalname := "a.aac"; path := "uploads/a.aac" |} in
  let b := {| originalname := "b.aac"; path := "uploads/b.aac" |} in
  let zero := {| Metadata.timestamp := Some 0; Metadata.duration := None;
                 Metadata.volume := Some 0 |} in
  Timestamp.filter_graph 30 [a] [Some zero] = Timestamp.filter_graph 30 [b] [] /\
  (Stinger.filter_graph unit (fun g => (0.5, g)) tt 24 ["a.aac"; "b.aac"]).1
  = (Stinger.filter_graph bool (fun g => (0.5, negb g)) true 24 ["c.aac"; "d.aac"]).1.
Proof.
  intros a b zero.
  destruct C5_deterministic_plan as (Hexplicit & _ & _ & Hrandom).
  split.
  - apply Hexplicit; [reflexivity|].
    intros [|i] Hi; [reflexivity | simpl in Hi; lia].
  - by apply Hrandom.
Defined.

(** ** C7: malformed metadata *)

(** An empty metadata field is never parsed: it is falsy, and the clips are
    processed with the default, empty list. *)
Example empty_payload_is_defaulted (JSON_parse : string -> option Process.json)
    (main : File) (files : list File) :
  Process.post_process JSON_parse id
    {| Process.mainAudio := Some main; Process.backgroundAudios := Some files;
       Process.backgroundAudioMetadata := Some "" |}
  = Process.CallProcessAudio (path main) files (Process.JArr [])
      ("public/" +:+ originalname main +:+ ".aac").
Proof. reflexivity. Qed.

(** C7, as stated, fails: the payload [{}] is valid JSON but not a list, and
    the request is not rejected; it goes on to [processAudio]. *)
Lemma C7_counterexample :
  ~ (forall (JSON_parse : string -> option Process.json) (path_parse_name : string -> string)
            (req : Process.request) (main : File) (files : list File) (text : string),
       Process.mainAudio req = Some main ->
       Process.backgroundAudios req = Some files ->
       Process.backgroundAudioMetadata req = Some text ->
       ~ Process.parses_as_list JSON_parse text ->
       Process.rejected (Process.post_process JSON_parse path_parse_name req)).
Proof.
  intros H.
  pose (main := {| originalname := "main.aac"; path := "uploads/main.aac" |}).
  specialize (H Process.parse_sample id
                {| Process.mainAudio := Some main; Process.backgroundAudios := Some [main];
                   Process.backgroundAudioMetadata := Some "{}" |}
                main [main] "{}" eq_refl eq_refl eq_refl).
  assert (Hnot : ~ Process.parses_as_list Process.parse_sample "{}").
  { intros [items Hitems]. vm_compute in Hitems. discriminate Hitems. }
  specialize (H Hnot). vm_compute in H. discriminate H.
Qed.

(** C7 (amended): for every request with both file fields and a non-empty
    metadata payload, if [JSON.parse] throws the handler answers 400
    "Invalid background audio metadata format" and [processAudio] is not
    called; if it returns a value, list or not, [processAudio] is called with
    that value. *)
Theorem C7_malformed_json_rejected (JSON_parse : string -> option Process.json)
    (path_parse_name : string -> string) (req : Process.request)
    (main : File) (files : list File) (text : string) :
  Process.mainAudio req = Some main ->
  Process.backgroundAudios req = Some files ->
  Process.backgroundAudioMetadata req = Some text ->
  text <> "" ->
  (JSON_parse text = None ->
     Process.post_process JSON_parse path_parse_name req
     = Process.Respond 400 "Invalid background audio metadata format") /\
  (forall v, JSON_parse text = Some v ->
     Process.post_process JSON_parse path_parse_name req
     = Process.CallProcessAudio (path main) files v
         ("public/" +:+ path_parse_name (originalname main) +:+ ".aac")).
Proof.
  intros Hmain Hfiles Htext Hne. unfold Process.post_process.
  rewrite Hmain, Hfiles, Htext.
  assert (Htruthy : Process.truthy text = true).
  { unfold Process.truthy. destruct (String.eqb_spec text ""); [congruence | done]. }
  rewrite Htruthy. split.
  - by intros ->.
  - by intros v ->.
Qed.

Lemma C7_malformed_json_rejected_witness :
  let main := {| originalname := "main"; path := "uploads/main" |} in
  let req text := {| Process.mainAudio := Some main; Process.backgroundAudios := Some [main];
                     Process.backgroundAudioMetadata := Some text |} in
  Process.post_process Process.parse_sample id (req "[{")
  = Process.Respond 400 "Invalid background audio metadata format" /\
  Process.post_process Process.parse_sample id (req "{}")
  = Process.CallProcessAudio "uploads/main" [main] (Process.JObj []) "public/main.aac".
Proof.
  intros main req. split.
  - apply (C7_malformed_json_rejected Process.parse_sample id (req "[{") main [main] "[{");
      done.
  - apply (C7_malformed_json_rejected Process.parse_sample id (req "{}") main [main] "{}");
      done.
Defined.

(** ** C8: which track is missing *)

(** C8, as stated, fails: a request whose artifact alone is missing and a
    request whose reference track alone is missing are sent the same answer,
    404 "File not found", so the answer does not tell which one is missing. *)
Lemma C8_counterexample :
  let e := {| Download.ffmpeg_ok := true; Download.handoff := Download.Sent |} in
  let no_artifact : gmap string Download.content :=
    {["/app/uploads/main.aac" := Download.Audio 10]} in
  let no_reference : gmap string Download.content :=
    {["/app/public/mix.aac" := Download.Audio 10]} in
  let download := Download.download Download.join_plain Download.uploads_dir
                    Download.public_dir Download.output_dir e in
  (no_artifact !! "/app/public/mix.aac" = None /\
   is_Some (no_artifact !! "/app/uploads/main.aac")) /\
  (is_Some (no_reference !! "/app/public/mix.aac") /\
   no_reference !! "/app/uploads/main.aac" = None) /\
  download no_artifact "mix.aac" (Some "main.aac")
  = Download.Handled {| Download.answers := [Download.Send 404 "File not found"];
                        Download.served := None; Download.files := no_artifact |} /\
  download no_reference "mix.aac" (Some "main.aac")
  = Download.Handled {| Download.answers := [Download.Send 404 "File not found"];
                        Download.served := None; Download.files := no_reference |}.
Proof.
  split; [split; [by vm_compute | eexists; by vm_compute]|].
  split; [split; [eexists; by vm_compute | by vm_compute]|].
  split; by vm_compute.
Qed.

Lemma existsSync_true (fs : gmap string Download.content) (p : string) :
  is_Some (fs !! p) -> Download.existsSync fs p = true.
Proof. intros H. unfold Download.existsSync. by apply bool_decide_eq_true. Qed.

Lemma existsSync_false (fs : gmap string Download.content) (p : string) :
  fs !! p = None -> Download.existsSync fs p = false.
Proof.
  intros H. unfold Download.existsSync. apply bool_decide_eq_false.
  rewrite H. by intros [x Hx].
Qed.

(** C8 (amended): for a request that carries a [mainAudio] query string, the
    route reports a missing artifact and a missing reference alike: it
    answers 404 "File not found" whenever either resolved path does not
    exist, and 500 "Error processing audio file" whenever both exist and
    either cannot be probed (an empty [mainAudio], which resolves to the
    uploads directory, is such a case); the files are left as they were.
    For a request without a [mainAudio] string the handler throws before it
    answers.  This holds whatever [path.join] resolves the names to. *)
Theorem C8_same_error_for_both (path_join : string -> string -> string)
    (uploadsDir publicDir outputDir : string)
    (e : Download.env) (fs : gmap string Download.content)
    (filename mainAudio : string) :
  let original := path_join publicDir filename in
  let reference := path_join uploadsDir mainAudio in
  let download := Download.download path_join uploadsDir publicDir outputDir e fs filename in
  (fs !! original = None \/ fs !! reference = None ->
     download (Some mainAudio)
     = Download.Handled {| Download.answers := [Download.Send 404 "File not found"];
                           Download.served := None; Download.files := fs |}) /\
  (is_Some (fs !! original) -> is_Some (fs !! reference) ->
   Download.getAudioDuration fs original = None \/
   Download.getAudioDuration fs reference = None ->
     download (Some mainAudio)
     = Download.Handled {| Download.answers := [Download.Send 500 "Error processing audio file"];
                           Download.served := None; Download.files := fs |}) /\
  download None = Download.Threw.
Proof.
  intros original reference download. subst download. unfold Download.download.
  fold original reference. split; [|split; [|done]].
  - intros [H|H].
    + by rewrite (existsSync_false _ _ H).
    + rewrite (existsSync_false _ _ H). by rewrite orb_true_r.
  - intros Ho Hr Hprobe.
    rewrite (existsSync_true _ _ Ho), (existsSync_true _ _ Hr). simpl.
    destruct Hprobe as [H|H]; rewrite H; [done|].
    by destruct (Download.getAudioDuration fs original).
Qed.

Lemma C8_same_error_for_both_witness :
  let e := {| Download.ffmpeg_ok := true; Download.handoff := Download.Sent |} in
  let no_artifact : gmap string Download.content :=
    {["/app/uploads/main.aac" := Download.Audio 10]} in
  let no_reference : gmap string Download.content :=
    {["/app/public/mix.aac" := Download.Audio 10]} in
  let uploads_only : gmap string Download.content :=
    {["/app/public/mix.aac" := Download.Audio 10; "/app/uploads" := Download.Unreadable]} in
  let download := Download.download Download.join_plain Download.uploads_dir
                    Download.public_dir Download.output_dir e in
  download no_artifact "mix.aac" (Some "main.aac")
  = Download.Handled {| Download.answers := [Download.Send 404 "File not found"];
                        Download.served := None; Download.files := no_artifact |} /\
  download no_reference "mix.aac" (Some "main.aac")
  = Download.Handled {| Download.answers := [Download.Send 404 "File not found"];
                        Download.served := None; Download.files := no_reference |} /\
  download uploads_only "mix.aac" (Some "")
  = Download.Handled {| Download.answers := [Download.Send 500 "Error processing audio file"];
                        Download.served := None; Download.files := uploads_only |} /\
  download no_reference "mix.aac" None = Download.Threw.
Proof.
  intros e no_artifact no_reference uploads_only download.
  split; [|split; [|split]].
  - apply (C8_same_error_for_both Download.join_plain Download.uploads_dir
             Download.public_dir Download.output_dir e no_artifact "mix.aac" "main.aac").
    left. by vm_compute.
  - apply (C8_same_error_for_both Download.join_plain Download.uploads_dir
             Download.public_dir Download.output_dir e no_reference "mix.aac" "main.aac").
    right. by vm_compute.
  - apply (C8_same_error_for_both Download.join_plain Download.uploads_dir
             Download.public_dir Download.output_dir e uploads_only "mix.aac" "").
    + eexists. by vm_compute.
    + eexists. by vm_compute.
    + right. by vm_compute.
  - apply (C8_same_error_for_both Download.join_plain Download.uploads_dir
             Download.public_dir Download.output_dir e no_reference "mix.aac" "main.aac").
Defined.

(** ** C9: the trimmed copy *)

(** For plain file names the trimmed copy is not a file of the public or
    of the uploads directory. *)
Lemma trimmed_path_fresh (filename other : string) :
  filename <> "" ->
  Download.join_plain Download.output_dir filename
  <> Download.join_plain Download.public_dir other /\
  Download.join_plain Download.output_dir filename
  <> Download.join_plain Download.uploads_dir other.
Proof.
  intros Hne. unfold Download.join_plain.
  destruct (String.eqb_spec filename "") as [->|_]; [done|].
  split; destruct (String.eqb other ""); discriminate.
Qed.



(** * Further properties of the servers *)

#[local] Set Warnings "-clear-no-such-hyp".

(** ** The filter graphs are well formed *)

Lemma connected_app (known : list string) (g1 g2 : list chain) :
  Graph.connected known (g1 ++ g2)
  = Graph.connected known g1 && Graph.connected (known ++ map out g1) g2.
Proof.
  revert known. induction g1 as [|c g1 IH]; intros known; simpl.
  - by rewrite app_nil_r.
  - rewrite IH, <- app_assoc. simpl. by rewrite andb_assoc.
Qed.

Lemma reads_known (known : list string) (ls : list string) :
  Forall (fun l => l ∈ known) ls ->
  forallb (fun l => bool_decide (l ∈ known)) ls = true.
Proof.
  intros H. apply forallb_forall. intros l Hl.
  apply bool_decide_eq_true. rewrite Forall_forall in H. apply H.
  by apply list_elem_of_In.
Qed.

(** Chains that only read labels known at the start are connected. *)
Lemma connected_base (known : list string) (g : list chain) :
  Forall (fun c => Forall (fun l => l ∈ known) (ins c)) g ->
  Graph.connected known g = true.
Proof.
  revert known. induction g as [|c g IH]; intros known Hg; simpl; [done|].
  inversion Hg as [ | c0 g0 Hc Hrest ]; subst.
  rewrite (reads_known _ _ Hc). simpl. apply IH.
  eapply Forall_impl; [exact Hrest|]. intros c' Hc'.
  eapply Forall_impl; [exact Hc'|]. intros l Hl. apply elem_of_app. by left.
Qed.

Lemma source_label_known (n k : nat) :
  (k < n)%nat -> Graph.source_label k ∈ map Graph.source_label (seq 0 n).
Proof.
  intros Hk. apply list_elem_of_fmap. exists k. split; [done|].
  apply elem_of_seq. lia.
Qed.

Lemma delayed_label_inj (i j : nat) : delayed_label i = delayed_label j -> i = j.
Proof.
  unfold delayed_label. intros H. injection H as H. simpl in H.
  apply pretty_nat_inj in H. lia.
Qed.

Lemma NoDup_map_seq {B : Type} (f : nat -> B) (k n : nat) :
  (forall i j, f i = f j -> i = j) -> NoDup (map f (seq k n)).
Proof.
  intros Hf. apply NoDup_fmap_2_strong; [|apply NoDup_seq].
  intros i j _ _. apply Hf.
Qed.

Lemma add_inputs_eq (mainAudioPath : string) (files : list File) :
  add_inputs mainAudioPath files = mainAudioPath :: map path files.
Proof.
  unfold add_inputs, forEach.
  assert (H : forall l k acc,
             forEach_from (fun (file : File) (_ : nat) (acc : list string) => acc ++ [path file])
               l k acc = acc ++ map path l).
  { induction l as [|x l IH]; intros k acc; simpl.
    - by rewrite app_nil_r.
    - rewrite IH. by rewrite <- app_assoc. }
  by rewrite H.
Qed.

Lemma Timestamp_connected (mainDuration : Q) (files : list File)
    (meta : list (option Metadata.t)) :
  Graph.well_formed (S (length files)) (Timestamp.filter_graph mainDuration files meta) = true.
Proof.
  rewrite Timestamp_filter_graph_eq. set (n := length files).
  unfold Graph.well_formed. rewrite connected_app. apply andb_true_iff. split.
  - apply connected_base, Forall_forall. intros ch Hch.
    apply list_elem_of_fmap in Hch as (i & -> & Hi). apply elem_of_seq in Hi.
    unfold Timestamp.clip_chain. cbn [ins]. constructor; [|constructor].
    apply (source_label_known (S n) (i + 1)). lia.
  - cbn [Graph.connected ins out]. rewrite andb_true_r.
    cbn [forallb]. apply andb_true_iff. split.
    + apply bool_decide_eq_true, elem_of_app. left.
      apply (source_label_known (S n) 0). lia.
    + apply reads_known, Forall_forall. intros l Hl.
      apply elem_of_app. right. rewrite <- list_fmap_compose.
      apply list_elem_of_fmap in Hl as (i & -> & Hi).
      apply list_elem_of_fmap. by exists i.
Qed.

Lemma Timestamp_labels_NoDup (mainDuration : Q) (files : list File)
    (meta : list (option Metadata.t)) :
  NoDup (map out (Timestamp.filter_graph mainDuration files meta)).
Proof.
  rewrite Timestamp_filter_graph_eq, map_app, <- list_fmap_compose.
  apply NoDup_app. split; [|split].
  - apply NoDup_map_seq. intros i j. apply delayed_label_inj.
  - intros l Hl Hout. apply list_elem_of_fmap in Hl as (i & -> & _).
    apply list_elem_of_singleton in Hout. discriminate Hout.
  - apply NoDup_singleton.
Qed.

Lemma Timestamp_mix_arity (mainDuration : Q) (files : list File)
    (meta : list (option Metadata.t)) :
  forallb Graph.mix_arity_ok (Timestamp.filter_graph mainDuration files meta) = true.
Proof.
  rewrite Timestamp_filter_graph_eq, forallb_app. apply andb_true_iff. split.
  - apply forallb_forall. intros ch Hch. apply in_map_iff in Hch as (i & <- & _). done.
  - unfold Graph.mix_arity_ok. cbn [forallb filters ins].
    rewrite length_cons, length_map, length_seq. by rewrite Nat.eqb_refl.
Qed.

(** X1: Every command the first server of part_000 runs has a well-formed graph
    over its own inputs: each chain reads an input pad of the command or a
    label written by an earlier chain, no label is written twice, every
    [amix] is fed as many labels as its [inputs] option says, and the label
    mapped to the output is written by the last chain. *)
Theorem Timestamp_graph_well_formed (ffprobe : string -> option Q) (mainAudioPath : string)
    (files : list File) (meta : list (option Metadata.t)) (outputPath : string) (c : command) :
  Timestamp.processAudio ffprobe mainAudioPath files meta outputPath = Run c ->
  Graph.well_formed (length (inputs c)) (complexFilter c) = true /\
  NoDup (map out (complexFilter c)) /\
  forallb Graph.mix_arity_ok (complexFilter c) = true /\
  out <$> last (complexFilter c) = Some (map_output c).
Proof.
  unfold Timestamp.processAudio. destruct (ffprobe mainAudioPath) as [d|]; [|done].
  intros [= <-]. cbn [inputs complexFilter map_output].
  rewrite add_inputs_eq, length_cons, length_map.
  split; [apply Timestamp_connected|]. split; [apply Timestamp_labels_NoDup|].
  split; [apply Timestamp_mix_arity|].
  rewrite Timestamp_filter_graph_eq. by rewrite last_snoc.
Qed.

Lemma Timestamp_graph_well_formed_witness :
  exists c,
    Timestamp.processAudio (fun _ => Some 30)
      "uploads/main.aac"
      [{| originalname := "a.aac"; path := "uploads/a.aac" |};
       {| originalname := "b.aac"; path := "uploads/b.aac" |}]
      [] "public/main.aac" = Run c /\
    Graph.well_formed 3 (complexFilter c) = true /\
    NoDup (map out (complexFilter c)).
Proof.
  eexists. split; [reflexivity|].
  destruct (Timestamp_graph_well_formed (fun _ => Some 30) "uploads/main.aac"
              [{| originalname := "a.aac"; path := "uploads/a.aac" |};
               {| originalname := "b.aac"; path := "uploads/b.aac" |}]
              [] "public/main.aac" _ eq_refl) as (Hwf & Hnodup & _).
  split; [exact Hwf | exact Hnodup].
Defined.

Lemma pretty_N_go_head (x : N) (s : string) :
  Graph.not_m_headed s -> Graph.not_m_headed (pretty_N_go x s).
Proof.
  revert s. induction (N.lt_wf_0 x) as [x _ IH]; intros s Hs.
  destruct (decide (x = 0)%N) as [->|Hx].
  - by rewrite pretty_N_go_0.
  - rewrite pretty_N_go_step by lia. apply IH.
    + apply N.div_lt; lia.
    + simpl. unfold pretty_N_char. by repeat case_match.
Qed.

Lemma pretty_nat_head (n : nat) : Graph.not_m_headed (pretty n).
Proof.
  unfold pretty, pretty_nat, pretty, pretty_N.
  destruct (decide (N.of_nat n = 0)%N) as [_|Hn]; [by simpl|].
  rewrite pretty_N_go_step by lia. apply pretty_N_go_head.
  simpl. unfold pretty_N_char. by repeat case_match.
Qed.

Lemma pretty_nat_ne_mix (n : nat) : pretty n <> "mix".
Proof. intros H. pose proof (pretty_nat_head n) as Hh. rewrite H in Hh. by apply Hh. Qed.

Lemma elem_of_flat_map_pair {B : Type} (a b : nat -> B) (l : list nat) (y : B) :
  y ∈ flat_map (fun i => [a i; b i]) l <-> exists i, i ∈ l /\ (y = a i \/ y = b i).
Proof.
  rewrite list_elem_of_In, in_flat_map. split.
  - intros (i & Hi & Hy). exists i. rewrite list_elem_of_In. split; [done|].
    simpl in Hy. destruct Hy as [<-|[<-|[]]]; auto.
  - intros (i & Hi & Hy). exists i. rewrite <- list_elem_of_In. split; [done|].
    simpl. destruct Hy as [->| ->]; auto.
Qed.

Lemma NoDup_flat_map_pair {B : Type} (a b : nat -> B) (l : list nat) :
  NoDup l ->
  (forall i j, a i = a j -> i = j) ->
  (forall i j, b i = b j -> i = j) ->
  (forall i j, a i <> b j) ->
  NoDup (flat_map (fun i => [a i; b i]) l).
Proof.
  intros Hl Ha Hb Hab. induction Hl as [|x l Hx Hl IH]; simpl; [constructor|].
  constructor; [|constructor; [|exact IH]].
  - intros Hin. apply elem_of_cons in Hin as [Heq|Hin]; [by apply Hab in Heq|].
    apply elem_of_flat_map_pair in Hin as (i & Hi & [Heq|Heq]).
    + apply Ha in Heq. by subst.
    + by apply Hab in Heq.
  - intros Hin. apply elem_of_flat_map_pair in Hin as (i & Hi & [Heq|Heq]).
    + symmetry in Heq. by apply Hab in Heq.
    + apply Hb in Heq. by subst.
Qed.

Lemma map_out_pairs (mainDuration : Q) (meta : list (option Metadata.t)) (l : list nat) :
  map out (flat_map (fun i => [Submix.trim_chain mainDuration meta i; Submix.delay_chain meta i]) l)
  = flat_map (fun i => ["bg" +:+ pretty (i + 1)%nat; "delayedbg" +:+ pretty (i + 1)%nat]) l.
Proof. induction l as [|x l IH]; simpl; [done | by rewrite IH]. Qed.

Lemma clip_labels_NoDup (l : list nat) :
  NoDup l ->
  NoDup (flat_map (fun i => ["bg" +:+ pretty (i + 1)%nat; "delayedbg" +:+ pretty (i + 1)%nat]) l).
Proof.
  intros Hl. apply (NoDup_flat_map_pair (fun i => "bg" +:+ pretty (i + 1)%nat)
                      (fun i => "delayedbg" +:+ pretty (i + 1)%nat)); [done|..].
  - intros i j H. injection H as H. simpl in H. apply pretty_nat_inj in H. lia.
  - intros i j H. injection H as H. simpl in H. apply pretty_nat_inj in H. lia.
  - intros i j H. discriminate H.
Qed.

Lemma connected_pairs (mainDuration : Q) (meta : list (option Metadata.t)) (n : nat) :
  forall (k : nat) (known : list string),
    (forall i, (k <= i < k + n)%nat -> Graph.source_label (i + 1) ∈ known) ->
    Graph.connected known
      (flat_map (fun i => [Submix.trim_chain mainDuration meta i; Submix.delay_chain meta i])
         (seq k n)) = true.
Proof.
  induction n as [|n IH]; intros k known Hknown; [done|].
  cbn [seq flat_map app Graph.connected].
  unfold Submix.trim_chain at 1, Submix.delay_chain at 1. cbn [ins out forallb].
  rewrite !andb_true_r. apply andb_true_iff. split; [|apply andb_true_iff; split].
  - apply bool_decide_eq_true. apply (Hknown k). lia.
  - apply bool_decide_eq_true, elem_of_app. right. by apply list_elem_of_singleton.
  - apply IH. intros i Hi. apply elem_of_app. left. apply elem_of_app. left.
    apply Hknown. lia.
Qed.

Lemma clip_out_known (mainDuration : Q) (meta : list (option Metadata.t)) (n i : nat)
    (known : list string) :
  (i < n)%nat ->
  out (Submix.delay_chain meta i)
  ∈ known ++ map out (flat_map (fun i => [Submix.trim_chain mainDuration meta i;
                                           Submix.delay_chain meta i]) (seq 0 n)).
Proof.
  intros Hi. apply elem_of_app. right. rewrite map_out_pairs.
  apply elem_of_flat_map_pair. exists i. split; [apply elem_of_seq; lia|]. by right.
Qed.

Lemma pairs_no_mix (mainDuration : Q) (meta : list (option Metadata.t)) (l : list nat) :
  forallb Graph.mix_arity_ok
    (flat_map (fun i => [Submix.trim_chain mainDuration meta i; Submix.delay_chain meta i]) l)
  = true.
Proof. induction l as [|x l IH]; simpl; [done | exact IH]. Qed.

Lemma clip_label_cases (l : string) (n : nat) :
  l ∈ flat_map (fun i => ["bg" +:+ pretty (i + 1)%nat; "delayedbg" +:+ pretty (i + 1)%nat])
        (seq 0 n) ->
  l <> "bgmix" /\ l <> "main" /\ l <> "out" /\ l <> "mainAudio".
Proof.
  intros Hl. apply elem_of_flat_map_pair in Hl as (i & _ & [-> | ->]).
  - repeat split; try discriminate.
    intros H. injection H as H. by apply pretty_nat_ne_mix in H.
  - repeat split; discriminate.
Qed.

Lemma pairs_no_amix (mainDuration : Q) (meta : list (option Metadata.t)) (l : list nat) :
  List.filter Graph.mixes
    (flat_map (fun i => [Submix.trim_chain mainDuration meta i; Submix.delay_chain meta i]) l)
  = [].
Proof. induction l as [|x l IH]; simpl; [done | exact IH]. Qed.

(** The two chains of the clip at index [i], found [k] chains into a graph
    that holds the clips' chains from there on. *)
Lemma pairs_lookup (mainDuration : Q) (meta : list (option Metadata.t)) (n i : nat)
    (before after : list chain) (k : nat) :
  length before = k -> (i < n)%nat ->
  exists c1 c2 ds,
    (before ++ flat_map (fun i => [Submix.trim_chain mainDuration meta i;
                                    Submix.delay_chain meta i]) (seq 0 n) ++ after)
      !! (k + 2 * i)%nat = Some c1 /\
    (before ++ flat_map (fun i => [Submix.trim_chain mainDuration meta i;
                                    Submix.delay_chain meta i]) (seq 0 n) ++ after)
      !! (k + 2 * i + 1)%nat = Some c2 /\
    ins c1 = [Graph.source_label (i + 1)] /\
    ins c2 = [out c1] /\
    filters c2 = [Adelay ds] /\
    out c2 = out (Submix.delay_chain meta i).
Proof.
  intros Hk Hi.
  exists (Submix.trim_chain mainDuration meta i), (Submix.delay_chain meta i),
    [Submix.startTime (entry meta i) * 1000; Submix.startTime (entry meta i) * 1000].
  destruct (lookup_flat_map_pair (Submix.trim_chain mainDuration meta)
              (Submix.delay_chain meta) n 0 i Hi) as [H1 H2].
  split; [|split; [|by repeat split]].
  - rewrite lookup_app_r by lia.
    replace (k + 2 * i - length before)%nat with (2 * i)%nat by lia.
    rewrite lookup_app_l by (rewrite length_flat_map_pair; lia). exact H1.
  - rewrite lookup_app_r by lia.
    replace (k + 2 * i + 1 - length before)%nat with (2 * i + 1)%nat by lia.
    rewrite lookup_app_l by (rewrite length_flat_map_pair; lia). exact H2.
Qed.

(** X2: Every command index.js runs has a well-formed graph over its own
    inputs: each chain reads an input pad of the command or a label written
    by an earlier chain, no label is written twice, every [amix] is fed as
    many labels as its [inputs] option says, and the label mapped to the
    output is written by the last chain.  The clip at index [i] has the
    chains [2i] and [2i+1]: the first reads the pad [i+1], the second is an
    [adelay] that reads the label the first writes.  With clips, the chain
    after them is the submix [bgmix], whose [amix] reads the label of every
    [adelay] chain, in index order, and nothing else; then the main track
    goes through [volume=1.0] to [main], and the last chain mixes [main] and
    [bgmix] to [out].  Without clips the graph is the main track through
    [volume=1.0] alone. *)
Theorem Submix_graph_well_formed (ffprobe : string -> option Q) (mainAudioPath : string)
    (files : list File) (meta : list (option Metadata.t)) (outputPath : string) (c : command) :
  Submix.processAudio ffprobe mainAudioPath files meta outputPath = Run c ->
  Graph.well_formed (length (inputs c)) (complexFilter c) = true /\
  NoDup (map out (complexFilter c)) /\
  forallb Graph.mix_arity_ok (complexFilter c) = true /\
  out <$> last (complexFilter c) = Some (map_output c) /\
  (forall i, (i < length files)%nat ->
     exists c1 c2 ds,
       complexFilter c !! (2 * i)%nat = Some c1 /\
       complexFilter c !! (2 * i + 1)%nat = Some c2 /\
       ins c1 = [Graph.source_label (i + 1)] /\
       ins c2 = [out c1] /\
       filters c2 = [Adelay ds]) /\
  (files <> [] ->
   length (complexFilter c) = (2 * length files + 3)%nat /\
   (exists submix,
      complexFilter c !! (2 * length files)%nat = Some submix /\
      filters submix = [Amix (length files) (Some dropout_transition_0)] /\
      out submix = "bgmix" /\
      length (ins submix) = length files /\
      forall i, (i < length files)%nat ->
        exists c2, complexFilter c !! (2 * i + 1)%nat = Some c2 /\
                   ins submix !! i = Some (out c2)) /\
   complexFilter c !! (2 * length files + 1)%nat
   = Some {| ins := ["0:a"]; filters := [Volume 1.0]; out := "main" |} /\
   complexFilter c !! (2 * length files + 2)%nat
   = Some {| ins := ["main"; "bgmix"]; filters := [Amix 2 (Some normalize_0)];
             out := "out" |}) /\
  (files = [] ->
   complexFilter c = [{| ins := ["0:a"]; filters := [Volume 1.0]; out := "out" |}]).
Proof.
  unfold Submix.processAudio. destruct (ffprobe mainAudioPath) as [d|]; [|done].
  intros [= <-]. cbn [inputs complexFilter map_output].
  rewrite add_inputs_eq, length_cons, length_map, Submix_filter_graph_eq.
  set (n := length files).
  set (pairs := flat_map _ (seq 0 n)).
  assert (Hsrc : forall i, (i < S n)%nat ->
            Graph.source_label i ∈ map Graph.source_label (seq 0 (S n))).
  { intros i Hi. by apply source_label_known. }
  assert (Hpairs : Graph.connected (map Graph.source_label (seq 0 (S n))) pairs = true).
  { apply connected_pairs. intros i Hi. apply Hsrc. lia. }
  assert (Hlen : length pairs = (2 * n)%nat) by apply length_flat_map_pair.
  assert (Hclip : forall tail i, (i < n)%nat ->
            exists c1 c2 ds,
              (pairs ++ tail) !! (2 * i)%nat = Some c1 /\
              (pairs ++ tail) !! (2 * i + 1)%nat = Some c2 /\
              ins c1 = [Graph.source_label (i + 1)] /\
              ins c2 = [out c1] /\
              filters c2 = [Adelay ds] /\
              out c2 = out (Submix.delay_chain meta i)).
  { intros tail i Hi.
    exact (pairs_lookup d meta n i [] tail 0 eq_refl Hi). }
  split; [|split; [|split; [|split; [|split; [|split]]]]].
  - unfold Graph.well_formed. rewrite connected_app, Hpairs. cbn [andb].
    destruct (0 <? n)%nat.
    + cbn [Graph.connected ins out forallb]. rewrite !andb_true_r.
      apply andb_true_iff. split; [|apply andb_true_iff; split; [|apply andb_true_iff; split]].
      * apply reads_known, Forall_forall. intros l Hl.
        apply list_elem_of_fmap in Hl as (i & -> & Hi). apply elem_of_seq in Hi.
        apply clip_out_known. lia.
      * apply bool_decide_eq_true. do 2 (apply elem_of_app; left). apply (Hsrc 0%nat). lia.
      * apply bool_decide_eq_true. rewrite !elem_of_app, !list_elem_of_singleton. auto.
      * apply bool_decide_eq_true. rewrite !elem_of_app, !list_elem_of_singleton. auto.
    + cbn [Graph.connected ins out forallb]. rewrite !andb_true_r.
      apply bool_decide_eq_true. apply elem_of_app; left. apply (Hsrc 0%nat). lia.
  - rewrite map_app. subst pairs. rewrite map_out_pairs.
    apply NoDup_app. split; [apply clip_labels_NoDup, NoDup_seq|]. split.
    + intros l Hl Hin. apply clip_label_cases in Hl as (H1 & H2 & H3 & _).
      destruct (0 <? n)%nat; cbn [map out] in Hin;
        rewrite ?elem_of_cons, ?elem_of_nil in Hin; tauto.
    + destruct (0 <? n)%nat; cbn [map out].
      * repeat (constructor;
                [rewrite ?elem_of_cons, ?elem_of_nil; intros H; repeat destruct H as [H|H];
                 (discriminate H || exact H)|]).
        constructor.
      * apply NoDup_singleton.
  - rewrite forallb_app. subst pairs. rewrite pairs_no_mix. cbn [andb].
    destruct (0 <? n)%nat; [|done].
    unfold Graph.mix_arity_ok. cbn [forallb filters ins].
    rewrite length_map, length_seq. by rewrite Nat.eqb_refl.
  - destruct (0 <? n)%nat.
    + by rewrite last_app.
    + by rewrite last_snoc.
  - intros i Hi.
    destruct (Hclip (if (0 <? n)%nat
                     then [{| ins := map (fun i => out (Submix.delay_chain meta i)) (seq 0 n);
                              filters := [Amix n (Some dropout_transition_0)];
                              out := "bgmix" |};
                           {| ins := ["0:a"]; filters := [Volume 1.0]; out := "main" |};
                           {| ins := ["main"; "bgmix"]; filters := [Amix 2 (Some normalize_0)];
                              out := "out" |}]
                     else [{| ins := ["0:a"]; filters := [Volume 1.0]; out := "out" |}]) i Hi)
      as (c1 & c2 & ds & H1 & H2 & H3 & H4 & H5 & _).
    by exists c1, c2, ds.
  - intros Hne.
    assert (Hn : (0 <? n)%nat = true).
    { apply Nat.ltb_lt. subst n. destruct files; [done | simpl; lia]. }
    rewrite Hn. split; [|split; [|split]].
    + rewrite length_app, Hlen. simpl. lia.
    + eexists. split.
      { rewrite lookup_app_r by lia. rewrite Hlen, Nat.sub_diag. reflexivity. }
      cbn [filters out ins]. split; [done|]. split; [done|].
      split; [by rewrite length_map, length_seq|].
      intros i Hi.
      destruct (Hclip [{| ins := map (fun i => out (Submix.delay_chain meta i)) (seq 0 n);
                          filters := [Amix n (Some dropout_transition_0)];
                          out := "bgmix" |};
                       {| ins := ["0:a"]; filters := [Volume 1.0]; out := "main" |};
                       {| ins := ["main"; "bgmix"]; filters := [Amix 2 (Some normalize_0)];
                          out := "out" |}] i Hi)
        as (c1 & c2 & ds & _ & H2 & _ & _ & _ & Hout).
      exists c2. split; [exact H2|]. rewrite Hout.
      by apply (lookup_map_seq (fun i => out (Submix.delay_chain meta i))).
    + rewrite lookup_app_r by lia. rewrite Hlen.
      by replace (2 * n + 1 - 2 * n)%nat with 1%nat by lia.
    + rewrite lookup_app_r by lia. rewrite Hlen.
      by replace (2 * n + 2 - 2 * n)%nat with 2%nat by lia.
  - intros ->. done.
Qed.

Lemma Submix_graph_well_formed_witness :
  exists c,
    Submix.processAudio (fun _ => Some 30)
      "uploads/main.aac"
      [{| originalname := "a.aac"; path := "uploads/a.aac" |};
       {| originalname := "b.aac"; path := "uploads/b.aac" |}]
      [] "public/main.aac" = Run c /\
    Graph.well_formed 3 (complexFilter c) = true /\
    NoDup (map out (complexFilter c)) /\
    length (complexFilter c) = 7%nat /\
    (exists submix,
       complexFilter c !! 4%nat = Some submix /\
       ins submix = ["delayedbg1"; "delayedbg2"] /\
       filters submix = [Amix 2 (Some dropout_transition_0)]).
Proof.
  eexists. split; [reflexivity|].
  destruct (Submix_graph_well_formed (fun _ => Some 30) "uploads/main.aac"
              [{| originalname := "a.aac"; path := "uploads/a.aac" |};
               {| originalname := "b.aac"; path := "uploads/b.aac" |}]
              [] "public/main.aac" _ eq_refl)
    as (Hwf & Hnodup & _ & _ & _ & Hmix & _).
  split; [exact Hwf|]. split; [exact Hnodup|].
  destruct (Hmix ltac:(discriminate)) as (Hlen & (submix & Hsub & Hf & _) & _).
  split; [exact Hlen|].
  exists submix. split; [exact Hsub|]. split; [|exact Hf].
  by injection Hsub as <-.
Defined.

(** X3: Every command the third server of part_000 runs has a well-formed graph
    over its own inputs: every label read is an input pad or was written by
    an earlier chain, no label is written twice, the [amix] is fed as many
    labels as its [inputs] option says, and the label mapped to the output is
    written by the last chain.  The first chain takes the main track through
    [volume=1] to [mainAudio]; the clip at index [i] has the chains [2i+1]
    and [2i+2], the first reading the pad [i+1] and the second an [adelay]
    reading the label the first writes; the last chain is the only one with
    an [amix], which reads [mainAudio] and then the label of every [adelay]
    chain, in index order. *)
Theorem Fade_graph_well_formed (ffprobe : string -> option Q) (mainAudioPath : string)
    (files : list File) (meta : list (option Metadata.t)) (outputPath : string) (c : command) :
  Fade.processAudio ffprobe mainAudioPath files meta outputPath = Run c ->
  Graph.well_formed (length (inputs c)) (complexFilter c) = true /\
  NoDup (map out (complexFilter c)) /\
  forallb Graph.mix_arity_ok (complexFilter c) = true /\
  out <$> last (complexFilter c) = Some (map_output c) /\
  length (complexFilter c) = (2 * length files + 2)%nat /\
  complexFilter c !! 0%nat
  = Some {| ins := ["0:a"]; filters := [Volume 1]; out := "mainAudio" |} /\
  (forall i, (i < length files)%nat ->
     exists c1 c2 ds,
       complexFilter c !! (2 * i + 1)%nat = Some c1 /\
       complexFilter c !! (2 * i + 2)%nat = Some c2 /\
       ins c1 = [Graph.source_label (i + 1)] /\
       ins c2 = [out c1] /\
       filters c2 = [Adelay ds]) /\
  (exists mix,
     complexFilter c !! (2 * length files + 1)%nat = Some mix /\
     List.filter Graph.mixes (complexFilter c) = [mix] /\
     filters mix = [Amix (S (length files)) (Some dropout_transition_0); Aformat] /\
     out mix = "out" /\
     length (ins mix) = S (length files) /\
     ins mix !! 0%nat = Some "mainAudio" /\
     forall i, (i < length files)%nat ->
       exists c2, complexFilter c !! (2 * i + 2)%nat = Some c2 /\
                  ins mix !! S i = Some (out c2)).
Proof.
  unfold Fade.processAudio. destruct (ffprobe mainAudioPath) as [d|]; [|done].
  intros [= <-]. cbn [inputs complexFilter map_output].
  rewrite add_inputs_eq, length_cons, length_map, Fade_filter_graph_eq.
  set (n := length files).
  set (pairs := flat_map _ (seq 0 n)).
  assert (Hsrc : forall i, (i < S n)%nat ->
            Graph.source_label i ∈ map Graph.source_label (seq 0 (S n))).
  { intros i Hi. by apply source_label_known. }
  assert (Hlen : length pairs = (2 * n)%nat) by apply length_flat_map_pair.
  set (first := {| ins := ["0:a"]; filters := [Volume 1]; out := "mainAudio" |}).
  set (mix := {| ins := "mainAudio" :: map (fun i => out (Submix.delay_chain meta i)) (seq 0 n);
                 filters := [Amix (S n) (Some dropout_transition_0); Aformat];
                 out := "out" |}).
  assert (Hclip : forall i, (i < n)%nat ->
            exists c1 c2 ds,
              (first :: pairs ++ [mix]) !! (2 * i + 1)%nat = Some c1 /\
              (first :: pairs ++ [mix]) !! (2 * i + 2)%nat = Some c2 /\
              ins c1 = [Graph.source_label (i + 1)] /\
              ins c2 = [out c1] /\
              filters c2 = [Adelay ds] /\
              out c2 = out (Submix.delay_chain meta i)).
  { intros i Hi.
    destruct (pairs_lookup d meta n i [first] [mix] 1 eq_refl Hi)
      as (c1 & c2 & ds & H1 & H2 & H3).
    exists c1, c2, ds.
    replace (2 * i + 1)%nat with (1 + 2 * i)%nat by lia.
    replace (2 * i + 2)%nat with (1 + 2 * i + 1)%nat by lia.
    split; [exact H1|]. split; [exact H2 | exact H3]. }
  split; [|split; [|split; [|split; [|split; [|split; [|split]]]]]].
  - unfold Graph.well_formed. cbn [Graph.connected ins out forallb first].
    rewrite andb_true_r. apply andb_true_iff. split.
    { apply bool_decide_eq_true. apply (Hsrc 0%nat). lia. }
    rewrite connected_app. apply andb_true_iff. split.
    + apply connected_pairs. intros i Hi. apply elem_of_app. left. apply Hsrc. lia.
    + cbn [Graph.connected ins out forallb mix]. rewrite !andb_true_r.
      apply andb_true_iff. split.
      * apply bool_decide_eq_true. rewrite !elem_of_app, !list_elem_of_singleton. auto.
      * apply reads_known, Forall_forall. intros l Hl.
        apply list_elem_of_fmap in Hl as (i & -> & Hi). apply elem_of_seq in Hi.
        apply clip_out_known. lia.
  - cbn [map out first]. rewrite map_app. subst pairs. rewrite map_out_pairs. cbn [map out mix].
    constructor.
    + rewrite elem_of_app, list_elem_of_singleton. intros [Hl|Hl]; [|discriminate Hl].
      by apply clip_label_cases in Hl as (_ & _ & _ & H).
    + apply NoDup_app. split; [apply clip_labels_NoDup, NoDup_seq|]. split.
      * intros l Hl Hin. apply clip_label_cases in Hl as (_ & _ & H & _).
        by apply list_elem_of_singleton in Hin.
      * apply NoDup_singleton.
  - cbn [forallb]. rewrite forallb_app. subst pairs. rewrite pairs_no_mix.
    unfold Graph.mix_arity_ok. cbn [forallb filters ins andb first mix].
    rewrite length_cons, length_map, length_seq. by rewrite Nat.eqb_refl.
  - by rewrite app_comm_cons, last_snoc.
  - rewrite length_cons, length_app, Hlen. simpl. lia.
  - done.
  - intros i Hi.
    destruct (Hclip i Hi) as (c1 & c2 & ds & H1 & H2 & H3 & H4 & H5 & _).
    by exists c1, c2, ds.
  - exists mix. split; [|split; [|split; [|split; [|split; [|split]]]]].
    + replace (2 * n + 1)%nat with (S (length pairs)) by lia.
      change ((first :: pairs ++ [mix]) !! S (length pairs))
        with ((pairs ++ [mix]) !! length pairs).
      rewrite lookup_app_r by lia. by rewrite Nat.sub_diag.
    + cbn [List.filter]. change (Graph.mixes first) with false. cbn iota.
      rewrite List.filter_app. subst pairs. by rewrite pairs_no_amix.
    + done.
    + done.
    + cbn [ins mix]. by rewrite length_cons, length_map, length_seq.
    + done.
    + intros i Hi.
      destruct (Hclip i Hi) as (c1 & c2 & ds & _ & H2 & _ & _ & _ & Hout).
      exists c2. split; [exact H2|]. rewrite Hout. cbn [ins mix].
      change (("mainAudio" :: map (fun i => out (Submix.delay_chain meta i)) (seq 0 n)) !! S i)
        with (map (fun i => out (Submix.delay_chain meta i)) (seq 0 n) !! i).
      by apply (lookup_map_seq (fun i => out (Submix.delay_chain meta i))).
Qed.

Lemma Fade_graph_well_formed_witness :
  exists c,
    Fade.processAudio (fun _ => Some 30)
      "uploads/main.aac" [{| originalname := "a.aac"; path := "uploads/a.aac" |}]
      [] "public/main.aac" = Run c /\
    Graph.well_formed 2 (complexFilter c) = true /\
    length (complexFilter c) = 4%nat /\
    (exists mix,
       complexFilter c !! 3%nat = Some mix /\
       ins mix = ["mainAudio"; "delayedbg1"] /\
       List.filter Graph.mixes (complexFilter c) = [mix]).
Proof.
  eexists. split; [reflexivity|].
  destruct (Fade_graph_well_formed (fun _ => Some 30) "uploads/main.aac"
              [{| originalname := "a.aac"; path := "uploads/a.aac" |}]
              [] "public/main.aac" _ eq_refl)
    as (Hwf & _ & _ & _ & Hlen & _ & _ & (mix & Hmix & Honly & _)).
  split; [exact Hwf|]. split; [exact Hlen|].
  exists mix. split; [exact Hmix|]. split; [|exact Honly].
  by injection Hmix as <-.
Defined.

(** ** part_001: the graph, the promise and the route *)

Lemma Stinger_forEach_chains (rng : Type) (Math_random : rng -> Q * rng) (mainDuration : Q)
    (l : list string) :
  forall (k : nat) (fc : list chain) (mix : list string) (g : rng),
    exists cs,
      (forEach_from (Stinger.clip_body rng Math_random mainDuration) l k (fc, mix, g)).1.1
        = fc ++ cs /\
      Forall2 (fun c i => ins c = [Graph.source_label (i + 1)] /\ out c = delayed_label i /\
                          Graph.mix_arity_ok c = true)
        cs (seq k (length l)).
Proof.
  induction l as [|x l IH]; intros k fc mix g; cbn [forEach_from length seq].
  - exists []. by rewrite app_nil_r.
  - set (u := (Math_random g).1). set (g' := (Math_random g).2).
    set (c := Stinger.clip_chain (Stinger.delay mainDuration u) k).
    assert (Hbody : Stinger.clip_body rng Math_random mainDuration x k (fc, mix, g)
                    = (fc ++ [c], mix ++ [out c], g')).
    { unfold Stinger.clip_body. subst c u g'. by destruct (Math_random g). }
    rewrite Hbody.
    destruct (IH (S k) (fc ++ [c]) (mix ++ [out c]) g') as (cs & Hcs & Hall).
    exists (c :: cs). split.
    + rewrite Hcs. by rewrite <- app_assoc.
    + constructor; [done | exact Hall].
Qed.

Lemma Stinger_filter_graph_shape (rng : Type) (Math_random : rng -> Q * rng) (seed : rng)
    (mainDuration : Q) (files : list string) :
  exists cs,
    (Stinger.filter_graph rng Math_random seed mainDuration files).1
    = cs ++ [{| ins := "0:a" :: map delayed_label (seq 0 (length files));
                filters := [Amix (S (length files)) (Some duration_longest)];
                out := "out" |}] /\
    Forall2 (fun c i => ins c = [Graph.source_label (i + 1)] /\ out c = delayed_label i /\
                        Graph.mix_arity_ok c = true)
      cs (seq 0 (length files)).
Proof.
  unfold Stinger.filter_graph, forEach.
  pose proof (Stinger_forEach rng Math_random mainDuration files 0 [] ["0:a"] seed) as Hmix.
  destruct (Stinger_forEach_chains rng Math_random mainDuration files 0 [] ["0:a"] seed)
    as (cs & Hcs & Hall).
  destruct (forEach_from _ files 0%nat _) as [[fc mix] g]. simpl in *. subst fc mix.
  exists cs. split; [|exact Hall].
  by rewrite length_cons, length_map, length_seq.
Qed.

Lemma Stinger_command_inputs (mainAudioFile : string) (shortAudioFiles : list string) :
  Stinger.command_inputs mainAudioFile shortAudioFiles = mainAudioFile :: shortAudioFiles.
Proof.
  unfold Stinger.command_inputs, forEach.
  assert (H : forall l k acc,
             forEach_from (fun (file : string) (_ : nat) (acc : list string) => acc ++ [file])
               l k acc = acc ++ l).
  { induction l as [|x l IH]; intros k acc; simpl.
    - by rewrite app_nil_r.
    - rewrite IH. by rewrite <- app_assoc. }
  by rewrite H.
Qed.

(** X4: Every command part_001 starts takes the main file and then the short
    files as inputs and has a well-formed graph over them: every label read
    is an input pad or was written by an earlier chain, no label is written
    twice, the [amix] is fed as many labels as its [inputs] option says, and
    the label mapped to the output is written by the last chain.  The chain
    of the clip at index [i] is the chain [i]: it reads the pad [i+1], which
    is the input holding the clip's own file, and writes [delayed(i+1)].  The
    last chain is the mix: its [amix] reads the main track's pad and then the
    label of every clip chain, in index order. *)
Theorem Stinger_graph_well_formed (rng : Type) (Math_random : rng -> Q * rng)
    (e : Stinger.env) (fs : gset string) (seed : rng)
    (mainAudioFile : string) (shortAudioFiles : list string) (outputPath : string)
    (c : command) :
  Stinger.spawned
    (Stinger.processAudio rng Math_random e fs seed mainAudioFile shortAudioFiles outputPath)
  = Some c ->
  inputs c = mainAudioFile :: shortAudioFiles /\
  Graph.well_formed (length (inputs c)) (complexFilter c) = true /\
  NoDup (map out (complexFilter c)) /\
  forallb Graph.mix_arity_ok (complexFilter c) = true /\
  out <$> last (complexFilter c) = Some (map_output c) /\
  length (complexFilter c) = S (length shortAudioFiles) /\
  (forall i, (i < length shortAudioFiles)%nat ->
     exists ch,
       complexFilter c !! i = Some ch /\
       ins ch = [Graph.source_label (i + 1)] /\
       inputs c !! (i + 1)%nat = shortAudioFiles !! i /\
       out ch = delayed_label i) /\
  (exists mix,
     complexFilter c !! length shortAudioFiles = Some mix /\
     filters mix = [Amix (S (length shortAudioFiles)) (Some duration_longest)] /\
     out mix = "out" /\
     length (ins mix) = S (length shortAudioFiles) /\
     ins mix !! 0%nat = Some "0:a" /\
     forall i, (i < length shortAudioFiles)%nat ->
       exists ch, complexFilter c !! i = Some ch /\ ins mix !! S i = Some (out ch)).
Proof.
  unfold Stinger.processAudio.
  destruct (negb (bool_decide (mainAudioFile ∈ fs))); [done|].
  destruct (Stinger.ffprobe e mainAudioFile) as [err|d]; [done|].
  destruct (Stinger_filter_graph_shape rng Math_random seed d shortAudioFiles)
    as (cs & Hgraph & Hall).
  destruct (Stinger.filter_graph rng Math_random seed d shortAudioFiles) as [fc g].
  simpl in Hgraph. subst fc.
  set (n := length shortAudioFiles) in *.
  assert (Houts : map out cs = map delayed_label (seq 0 n)).
  { clear -Hall. induction Hall as [|ch i cs idxs (_ & Hout & _) _ IH]; simpl; [done|].
    by rewrite Hout, IH. }
  assert (Hins : Forall (fun ch => Forall (fun l => l ∈ map Graph.source_label (seq 0 (S n)))
                                     (ins ch)) cs).
  { assert (Hrange : Forall (fun i => (i < n)%nat) (seq 0 n)).
    { apply Forall_forall. intros i Hi. apply elem_of_seq in Hi. lia. }
    clear -Hall Hrange. induction Hall as [|ch i cs idxs (Hin & _ & _) _ IH]; [constructor|].
    inversion Hrange as [ | i0 idxs0 Hi Hrest ]; subst.
    constructor; [|by apply IH].
    rewrite Hin. constructor; [|constructor]. apply source_label_known. lia. }
  assert (Hmix : forallb Graph.mix_arity_ok cs = true).
  { clear -Hall. induction Hall as [|ch i cs idxs (_ & _ & Hok) _ IH]; simpl; [done|].
    by rewrite Hok, IH. }
  assert (Hrun : forall r : Stinger.processed rng,
            Stinger.spawned r = Some c ->
            Stinger.spawned r
            = Some {| inputs := Stinger.command_inputs mainAudioFile shortAudioFiles;
                      complexFilter := cs ++ [{| ins := "0:a" :: map delayed_label (seq 0 n);
                                                 filters := [Amix (S n) (Some duration_longest)];
                                                 out := "out" |}];
                      map_output := "out"; audioCodec := "aac"; audioBitrate := "128k";
                      toFormat := "adts"; output_duration := None; save := outputPath |} ->
            c = {| inputs := Stinger.command_inputs mainAudioFile shortAudioFiles;
                   complexFilter := cs ++ [{| ins := "0:a" :: map delayed_label (seq 0 n);
                                              filters := [Amix (S n) (Some duration_longest)];
                                              out := "out" |}];
                   map_output := "out"; audioCodec := "aac"; audioBitrate := "128k";
                   toFormat := "adts"; output_duration := None; save := outputPath |}).
  { intros r H1 H2. congruence. }
  intros Hc.
  assert (Ec : c = {| inputs := Stinger.command_inputs mainAudioFile shortAudioFiles;
                      complexFilter := cs ++ [{| ins := "0:a" :: map delayed_label (seq 0 n);
                                                 filters := [Amix (S n) (Some duration_longest)];
                                                 out := "out" |}];
                      map_output := "out"; audioCodec := "aac"; audioBitrate := "128k";
                      toFormat := "adts"; output_duration := None; save := outputPath |}).
  { eapply Hrun; [exact Hc|]. by destruct (Stinger.ffmpeg e _). }
  subst c. cbn [inputs complexFilter map_output].
  rewrite Stinger_command_inputs, length_cons. fold n.
  assert (Hcs : length cs = n).
  { apply Forall2_length in Hall. by rewrite length_seq in Hall. }
  assert (Hclip : forall i, (i < n)%nat ->
            exists ch, cs !! i = Some ch /\
                       ins ch = [Graph.source_label (i + 1)] /\ out ch = delayed_label i).
  { intros i Hi.
    destruct (Forall2_lookup_r _ _ _ i i Hall (lookup_seq_lt 0 n i Hi))
      as (ch & Hch & Hin & Hout & _).
    by exists ch. }
  split; [done|]. split; [|split; [|split; [|split; [|split; [|split]]]]].
  - unfold Graph.well_formed. rewrite connected_app. apply andb_true_iff. split.
    + by apply connected_base.
    + cbn [Graph.connected ins out forallb]. rewrite andb_true_r.
      apply andb_true_iff. split.
      * apply bool_decide_eq_true, elem_of_app. left. apply (source_label_known (S n) 0). lia.
      * apply reads_known, Forall_forall. intros l Hl. apply elem_of_app. right.
        by rewrite Houts.
  - rewrite map_app, Houts. apply NoDup_app. split; [|split].
    + apply NoDup_map_seq. intros i j. apply delayed_label_inj.
    + intros l Hl Hout. apply list_elem_of_fmap in Hl as (i & -> & _).
      apply list_elem_of_singleton in Hout. discriminate Hout.
    + apply NoDup_singleton.
  - rewrite forallb_app, Hmix. unfold Graph.mix_arity_ok. cbn [forallb filters ins andb].
    rewrite length_cons, length_map, length_seq. by rewrite Nat.eqb_refl.
  - by rewrite last_snoc.
  - rewrite length_app, Hcs. simpl. lia.
  - intros i Hi. destruct (Hclip i Hi) as (ch & Hch & Hin & Hout).
    exists ch. split; [by rewrite lookup_app_l by lia|]. split; [exact Hin|].
    split; [|exact Hout].
    by replace (i + 1)%nat with (S i) by lia.
  - eexists. split; [rewrite lookup_app_r by lia; rewrite Hcs, Nat.sub_diag; reflexivity|].
    cbn [filters out ins]. split; [done|]. split; [done|].
    split; [by rewrite length_cons, length_map, length_seq|]. split; [done|].
    intros i Hi. destruct (Hclip i Hi) as (ch & Hch & Hin & Hout).
    exists ch. split; [by rewrite lookup_app_l by lia|]. rewrite Hout.
    change (("0:a" :: map delayed_label (seq 0 n)) !! S i)
      with (map delayed_label (seq 0 n) !! i).
    by apply lookup_map_seq.
Qed.

Lemma Stinger_graph_well_formed_witness :
  let e := {| Stinger.now := 1700000000000%N; Stinger.ffprobe := fun _ => inr 24;
              Stinger.ffmpeg := fun _ => None |} in
  let fs : gset string := {["uploads/m.aac"; "uploads/s.aac"]} in
  exists c,
    Stinger.spawned
      (Stinger.processAudio unit (fun g => (0.5, g)) e fs tt
         "uploads/m.aac" ["uploads/s.aac"] "public/output_1.aac") = Some c /\
    inputs c = ["uploads/m.aac"; "uploads/s.aac"] /\
    Graph.well_formed 2 (complexFilter c) = true /\
    (exists ch, complexFilter c !! 0%nat = Some ch /\ ins ch = ["1:a"] /\
                inputs c !! 1%nat = Some "uploads/s.aac" /\ out ch = "delayed1").
Proof.
  intros e fs.
  assert (Hc : exists c,
             Stinger.spawned
               (Stinger.processAudio unit (fun g => (0.5, g)) e fs tt
                  "uploads/m.aac" ["uploads/s.aac"] "public/output_1.aac") = Some c).
  { eexists. by vm_compute. }
  destruct Hc as [c Hc]. exists c. split; [exact Hc|].
  destruct (Stinger_graph_well_formed unit (fun g => (0.5, g)) e fs tt
              "uploads/m.aac" ["uploads/s.aac"] "public/output_1.aac" c Hc)
    as (Hin & Hwf & _ & _ & _ & _ & Hclip & _).
  split; [exact Hin|]. split; [rewrite Hin in Hwf; exact Hwf|].
  destruct (Hclip 0%nat ltac:(simpl; lia)) as (ch & Hch & Hpad & Hfile & Hout).
  exists ch. split; [exact Hch|]. split; [exact Hpad|]. split; [exact Hfile | exact Hout].
Defined.

Lemma reject_settled (message : string) (p : option Stinger.settlement) :
  is_Some p -> Stinger.reject message p = p.
Proof. by intros [x ->]. Qed.

Lemma resolve_settled (p : option Stinger.settlement) :
  is_Some p -> Stinger.resolve p = p.
Proof. by intros [x ->]. Qed.

Lemma check_short_files_from (fs : gset string) (l : list string) :
  forall (k : nat) (p : option Stinger.settlement),
    forEach_from
      (fun (file : string) (_ : nat) (p : option Stinger.settlement) =>
         if negb (bool_decide (file ∈ fs))
         then Stinger.reject ("Short audio file not found: " +:+ file) p
         else p) l k p
    = match p with
      | Some _ => p
      | None =>
          match List.find (fun file => negb (bool_decide (file ∈ fs))) l with
          | Some file => Some (Stinger.RejectedWith ("Short audio file not found: " +:+ file))
          | None => None
          end
      end.
Proof.
  induction l as [|x l IH]; intros k p; simpl.
  - by destruct p.
  - rewrite IH. destruct p as [s|]; simpl.
    + by destruct (negb (bool_decide (x ∈ fs))).
    + by destruct (negb (bool_decide (x ∈ fs))).
Qed.

(** The loop over the short files settles the promise with the first
    missing file, if there is one. *)
Lemma check_short_files_eq (fs : gset string) (l : list string) :
  Stinger.check_short_files fs l None
  = match List.find (fun file => negb (bool_decide (file ∈ fs))) l with
    | Some file => Some (Stinger.RejectedWith ("Short audio file not found: " +:+ file))
    | None => None
    end.
Proof. unfold Stinger.check_short_files, forEach. by rewrite check_short_files_from. Qed.

Lemma find_first_missing (fs : gset string) (present : list string) (file : string)
    (rest : list string) :
  Forall (fun f => f ∈ fs) present -> file ∉ fs ->
  List.find (fun f => negb (bool_decide (f ∈ fs))) (present ++ file :: rest) = Some file.
Proof.
  intros Hpresent Hfile. induction Hpresent as [|x l Hx _ IH]; simpl.
  - by rewrite bool_decide_eq_false_2.
  - by rewrite bool_decide_eq_true_2.
Qed.

Lemma find_none_missing (fs : gset string) (l : list string) :
  List.find (fun f => negb (bool_decide (f ∈ fs))) l = None <-> Forall (fun f => f ∈ fs) l.
Proof.
  induction l as [|x l IH]; simpl.
  - split; [constructor | done].
  - destruct (bool_decide (x ∈ fs)) eqn:E; simpl.
    + apply bool_decide_eq_true in E. rewrite IH. split.
      * by constructor.
      * by inversion 1.
    + apply bool_decide_eq_false in E. split; [done|]. by inversion 1.
Qed.

(** X8: A missing short file rejects the promise of part_001 with the name of
    the first missing one, whatever the probe and ffmpeg do afterwards; yet
    the [return] of line 86 only leaves the loop's callback, so when the main
    track is probed the ffmpeg command is started all the same. *)
Theorem Stinger_missing_short_file (rng : Type) (Math_random : rng -> Q * rng)
    (e : Stinger.env) (fs : gset string) (seed : rng)
    (mainAudioFile : string) (present : list string) (file : string) (rest : list string)
    (outputPath : string) :
  mainAudioFile ∈ fs ->
  Forall (fun f => f ∈ fs) present ->
  file ∉ fs ->
  let r := Stinger.processAudio rng Math_random e fs seed mainAudioFile
             (present ++ file :: rest) outputPath in
  Stinger.promise r = Some (Stinger.RejectedWith ("Short audio file not found: " +:+ file)) /\
  (forall mainDuration, Stinger.ffprobe e mainAudioFile = inr mainDuration ->
     is_Some (Stinger.spawned r)).
Proof.
  intros Hmain Hpresent Hfile r. subst r. unfold Stinger.processAudio.
  rewrite bool_decide_eq_true_2 by done. cbn [negb].
  rewrite check_short_files_eq, (find_first_missing fs present file rest) by done.
  destruct (Stinger.ffprobe e mainAudioFile) as [err|d] eqn:Hprobe.
  - split; [done|]. intros d' [=].
  - destruct (Stinger.filter_graph rng Math_random seed d (present ++ file :: rest)) as [fc g].
    destruct (Stinger.ffmpeg e _); split; try done; intros; by eexists.
Qed.

Lemma Stinger_missing_short_file_witness :
  let e := {| Stinger.now := 1700000000000%N; Stinger.ffprobe := fun _ => inr 24;
              Stinger.ffmpeg := fun _ => None |} in
  let fs : gset string := {["uploads/m.aac"; "uploads/a.aac"]} in
  let r := Stinger.processAudio unit (fun g => (0.5, g)) e fs tt "uploads/m.aac"
             ["uploads/a.aac"; "uploads/b.aac"; "uploads/c.aac"] "public/output_1.aac" in
  Stinger.promise r
  = Some (Stinger.RejectedWith "Short audio file not found: uploads/b.aac") /\
  is_Some (Stinger.spawned r).
Proof.
  intros e fs r.
  assert (Hmain : "uploads/m.aac" ∈ fs) by (by vm_compute).
  assert (Hpresent : Forall (fun f => f ∈ fs) ["uploads/a.aac"]).
  { constructor; [by vm_compute | constructor]. }
  assert (Hfile : "uploads/b.aac" ∉ fs) by (by vm_compute).
  destruct (Stinger_missing_short_file unit (fun g => (0.5, g)) e fs tt "uploads/m.aac"
              ["uploads/a.aac"] "uploads/b.aac" ["uploads/c.aac"] "public/output_1.aac"
              Hmain Hpresent Hfile) as [Hpromise Hspawned].
  split; [exact Hpromise|]. by apply (Hspawned 24).
Defined.

Lemma Stinger_promise_settled (rng : Type) (Math_random : rng -> Q * rng)
    (e : Stinger.env) (fs : gset string) (seed : rng)
    (mainAudioFile : string) (shortAudioFiles : list string) (outputPath : string) :
  is_Some (Stinger.promise
             (Stinger.processAudio rng Math_random e fs seed mainAudioFile
                shortAudioFiles outputPath)).
Proof.
  unfold Stinger.processAudio.
  destruct (negb (bool_decide (mainAudioFile ∈ fs))); [by eexists|].
  rewrite check_short_files_eq.
  destruct (List.find _ shortAudioFiles) as [missing|];
    destruct (Stinger.ffprobe e mainAudioFile) as [err|d];
    try (by eexists);
    destruct (Stinger.filter_graph rng Math_random seed d shortAudioFiles) as [fc g];
    destruct (Stinger.ffmpeg e _); by eexists.
Qed.

(** X9: The promise of part_001 is always settled, and it resolves exactly when
    the main file and every short file exist and the command was started and
    ffmpeg ended it without an error. *)
Theorem Stinger_resolves_iff (rng : Type) (Math_random : rng -> Q * rng)
    (e : Stinger.env) (fs : gset string) (seed : rng)
    (mainAudioFile : string) (shortAudioFiles : list string) (outputPath : string) :
  let r := Stinger.processAudio rng Math_random e fs seed mainAudioFile
             shortAudioFiles outputPath in
  is_Some (Stinger.promise r) /\
  (Stinger.promise r = Some Stinger.Resolved <->
   mainAudioFile ∈ fs /\
   Forall (fun f => f ∈ fs) shortAudioFiles /\
   exists c, Stinger.spawned r = Some c /\ Stinger.ffmpeg e c = None).
Proof.
  intros r. subst r. unfold Stinger.processAudio.
  destruct (bool_decide (mainAudioFile ∈ fs)) eqn:Hmain; cbn [negb].
  2: { apply bool_decide_eq_false in Hmain. split; [by eexists|].
       split; [done | by intros (? & _)]. }
  apply bool_decide_eq_true in Hmain.
  rewrite check_short_files_eq.
  pose proof (find_none_missing fs shortAudioFiles) as Hfind.
  destruct (List.find _ shortAudioFiles) as [missing|].
  - assert (Hno : ~ Forall (fun f => f ∈ fs) shortAudioFiles).
    { intros H. apply Hfind in H. discriminate H. }
    destruct (Stinger.ffprobe e mainAudioFile) as [err|d].
    + split; [by eexists|]. split; [done | by intros (_ & ? & _)].
    + destruct (Stinger.filter_graph rng Math_random seed d shortAudioFiles) as [fc g].
      destruct (Stinger.ffmpeg e _); (split; [by eexists|]);
        (split; [done | by intros (_ & ? & _)]).
  - assert (Hall : Forall (fun f => f ∈ fs) shortAudioFiles) by (by apply Hfind).
    destruct (Stinger.ffprobe e mainAudioFile) as [err|d].
    + split; [by eexists|]. split; [done | by intros (_ & _ & c & ? & _)].
    + destruct (Stinger.filter_graph rng Math_random seed d shortAudioFiles) as [fc g].
      destruct (Stinger.ffmpeg e _) as [err|] eqn:Hrun; (split; [by eexists|]).
      * split; [done|]. intros (_ & _ & c & [= <-] & Hend). congruence.
      * split; [|done]. intros _. split; [done|]. split; [done|]. by eexists.
Qed.

Lemma clean_up_eq (paths : list string) (fs : gset string) :
  Stinger.clean_up paths fs = fs ∖ list_to_set paths.
Proof.
  unfold Stinger.clean_up, forEach.
  assert (H : forall l k (s : gset string),
             forEach_from (fun (filePath : string) (_ : nat) (s : gset string) =>
                             s ∖ {[filePath]}) l k s = s ∖ list_to_set l).
  { induction l as [|x l IH]; intros k s; simpl.
    - set_solver.
    - rewrite IH. set_solver. }
  apply H.
Qed.

Lemma Stinger_files_after (rng : Type) (Math_random : rng -> Q * rng)
    (e : Stinger.env) (fs : gset string) (seed : rng)
    (mainAudioFile : string) (shortAudioFiles : list string) (outputPath : string) :
  let r := Stinger.processAudio rng Math_random e fs seed mainAudioFile
             shortAudioFiles outputPath in
  (Stinger.promise r = Some Stinger.Resolved ->
   Stinger.files_after r = {[outputPath]} ∪ fs) /\
  fs ⊆ Stinger.files_after r /\ Stinger.files_after r ⊆ {[outputPath]} ∪ fs.
Proof.
  intros r. subst r. unfold Stinger.processAudio.
  destruct (negb (bool_decide (mainAudioFile ∈ fs))); [split; [done | set_solver]|].
  rewrite check_short_files_eq.
  destruct (List.find _ shortAudioFiles) as [missing|];
    destruct (Stinger.ffprobe e mainAudioFile) as [err|d];
    try (split; [done | set_solver]);
    destruct (Stinger.filter_graph rng Math_random seed d shortAudioFiles) as [fc g];
    destruct (Stinger.ffmpeg e _); cbn; (split; [done | set_solver]).
Qed.

(** X10: The POST route of part_001 deletes the uploaded files only when it
    answers 200: then none of the input paths is left, the output file
    [public/output_<now>.aac] named in the download URL is there (unless it
    is one of the inputs) and no other file has changed; when it answers 500
    no file is deleted, the uploads stay where they were. *)
Theorem Stinger_route_files (rng : Type) (Math_random : rng -> Q * rng)
    (e : Stinger.env) (fs : gset string) (seed : rng) (req : Stinger.request)
    (main : File) (shorts : list File) :
  Stinger.mainAudio req = Some main ->
  Stinger.shortAudios req = Some shorts ->
  let uploaded := path main :: map path shorts in
  let outputFileName := "output_" +:+ pretty (Stinger.now e) +:+ ".aac" in
  let outputPath := "public/" +:+ outputFileName in
  let r := Stinger.post_process rng Math_random e fs seed req in
  (r.1 = Stinger.SendJson 200 [("message", "Audio processed successfully");
                               ("downloadUrl", "/download/" +:+ outputFileName)] /\
   (forall p, p ∈ uploaded -> p ∉ r.2) /\
   (forall p, p ∉ uploaded -> p ∈ r.2 <-> p ∈ fs \/ p = outputPath)) \/
  (exists message,
     r.1 = Stinger.SendJson 500 [("error", "Error processing audio: " +:+ message)] /\
     fs ⊆ r.2 /\ r.2 ⊆ {[outputPath]} ∪ fs).
Proof.
  intros Hmain Hshorts uploaded outputFileName outputPath r. subst r.
  unfold Stinger.post_process. rewrite Hmain, Hshorts.
  fold outputFileName. change (Stinger.publicDir +:+ "/" +:+ outputFileName) with outputPath.
  pose proof (Stinger_promise_settled rng Math_random e fs seed (path main) (map path shorts)
                outputPath) as Hsettled.
  pose proof (Stinger_files_after rng Math_random e fs seed (path main) (map path shorts)
                outputPath) as (Hres & Hsub & Hsup).
  cbv zeta in Hsettled, Hres, Hsub, Hsup.
  set (r := Stinger.processAudio rng Math_random e fs seed (path main) (map path shorts)
              outputPath) in *.
  destruct (Stinger.promise r) as [[|message]|] eqn:Hpromise.
  - left. cbn [fst snd]. split; [done|]. rewrite clean_up_eq, (Hres eq_refl).
    fold uploaded. split; intros p Hp; set_solver.
  - right. exists message. cbn [fst snd]. by split.
  - by destruct Hsettled.
Qed.

Lemma Stinger_route_files_witness :
  let e := {| Stinger.now := 1700000000000%N; Stinger.ffprobe := fun _ => inr 24;
              Stinger.ffmpeg := fun _ => None |} in
  let fs : gset string := {["uploads/m.aac"; "uploads/s.aac"; "public/old.aac"]} in
  let req := {| Stinger.mainAudio := Some {| originalname := "m.aac"; path := "uploads/m.aac" |};
                Stinger.shortAudios := Some [{| originalname := "s.aac"; path := "uploads/s.aac" |}] |} in
  let r := Stinger.post_process unit (fun g => (0.5, g)) e fs tt req in
  r.1 = Stinger.SendJson 200 [("message", "Audio processed successfully");
                              ("downloadUrl", "/download/output_1700000000000.aac")] /\
  ("uploads/m.aac" ∉ r.2) /\ ("uploads/s.aac" ∉ r.2) /\
  ("public/output_1700000000000.aac" ∈ r.2) /\ ("public/old.aac" ∈ r.2).
Proof.
  intros e fs req r.
  destruct (Stinger_route_files unit (fun g => (0.5, g)) e fs tt req
              {| originalname := "m.aac"; path := "uploads/m.aac" |}
              [{| originalname := "s.aac"; path := "uploads/s.aac" |}] eq_refl eq_refl)
    as [(Hresp & Hgone & Hrest)|(message & Hresp & _)].
  - split; [exact Hresp|].
    split; [apply Hgone; simpl; set_solver|]. split; [apply Hgone; simpl; set_solver|].
    split; apply Hrest.
    + simpl. rewrite !elem_of_cons, elem_of_nil. intros [H|[H|[]]]; discriminate H.
    + by right.
    + simpl. rewrite !elem_of_cons, elem_of_nil. intros [H|[H|[]]]; discriminate H.
    + left. by vm_compute.
  - exfalso. vm_compute in Hresp. discriminate Hresp.
Defined.

(** ** part_001: where a random clip lands *)

Lemma Math_floor_le (x : Q) : Math_floor x <= x.
Proof. apply Qfloor_le. Qed.

Lemma Math_floor_nonneg (x : Q) : 0 <= x -> 0 <= Math_floor x.
Proof.
  intros Hx. unfold Math_floor. change 0 with (inject_Z 0). rewrite <- Zle_Qle.
  change 0%Z with (Qfloor 0). by apply Qfloor_resp_le.
Qed.

Lemma Math_floor_negative (x : Q) : x < 0 -> Math_floor x <= -1.
Proof.
  intros Hx. unfold Math_floor.
  assert (H : inject_Z (Qfloor x) < inject_Z 0).
  { eapply Qle_lt_trans; [apply Qfloor_le | exact Hx]. }
  rewrite <- Zlt_Qlt in H. change (-1) with (inject_Z (-1)). rewrite <- Zle_Qle. lia.
Qed.

(** X6: For a main track of at least 4 seconds and a draw of [Math.random] in
    [0, 1), the delay of part_001 is not negative and the 4 second clip that
    starts there ends within the main track. *)
Theorem Stinger_delay_in_range (mainDuration u : Q) :
  4 <= mainDuration -> 0 <= u -> u < 1 ->
  0 <= Stinger.delay mainDuration u /\
  Stinger.delay mainDuration u / 1000 + 4 <= mainDuration.
Proof.
  intros Hmain Hu0 Hu1. unfold Stinger.delay.
  set (x := u * (mainDuration - 4)).
  assert (Hx0 : 0 <= x).
  { apply Qmult_le_0_compat; lra. }
  assert (Hx1 : x <= mainDuration - 4).
  { assert (H : u * (mainDuration - 4) <= 1 * (mainDuration - 4)).
    { apply Qmult_le_compat_r; lra. }
    subst x. lra. }
  pose proof (Math_floor_le x) as Hle. pose proof (Math_floor_nonneg x Hx0) as Hge.
  set (f := Math_floor x) in *. clearbody f.
  assert (Hdiv : f * 1000 / 1000 == f) by field.
  split; [lra|]. rewrite Hdiv. lra.
Qed.

Lemma Stinger_delay_in_range_witness :
  0 <= Stinger.delay 24 0.99 /\ Stinger.delay 24 0.99 / 1000 + 4 <= 24.
Proof. apply (Stinger_delay_in_range 24 0.99); lra. Defined.

(** X7: For a main track shorter than 4 seconds every positive draw gives
    part_001 a negative delay, of at least one second before the start. *)
Theorem Stinger_delay_negative (mainDuration u : Q) :
  mainDuration < 4 -> 0 < u ->
  Stinger.delay mainDuration u <= -1000.
Proof.
  intros Hmain Hu. unfold Stinger.delay.
  set (x := u * (mainDuration - 4)).
  assert (Hx : x < 0).
  { assert (H : 0 < u * (4 - mainDuration)) by (apply Qmult_lt_0_compat; lra).
    assert (E : x == - (u * (4 - mainDuration))) by (subst x; ring).
    lra. }
  pose proof (Math_floor_negative x Hx) as Hle.
  set (f := Math_floor x) in *. clearbody f. lra.
Qed.

Lemma Stinger_delay_negative_witness : Stinger.delay 3 0.5 <= -1000.
Proof. apply (Stinger_delay_negative 3 0.5); lra. Defined.

(** ** Clips read their own files *)

(** X5: The command of both metadata servers lists the main track first and the
    clips after it in upload order, and the chain of the clip at [index]
    reads the pad [index + 1], which is the input holding that clip's own
    file. *)
Theorem clip_pads_match_inputs (ffprobe : string -> option Q) (mainAudioPath : string)
    (files : list File) (meta : list (option Metadata.t)) (outputPath : string)
    (mainDuration : Q) (index : nat) (file : File) :
  ffprobe mainAudioPath = Some mainDuration ->
  files !! index = Some file ->
  exists cT cS,
    Timestamp.processAudio ffprobe mainAudioPath files meta outputPath = Run cT /\
    Submix.processAudio ffprobe mainAudioPath files meta outputPath = Run cS /\
    inputs cT = mainAudioPath :: map path files /\
    inputs cS = inputs cT /\
    inputs cT !! (index + 1)%nat = Some (path file) /\
    (exists ch, complexFilter cT !! index = Some ch /\
                ins ch = [Graph.source_label (index + 1)]) /\
    (exists ch, complexFilter cS !! (2 * index)%nat = Some ch /\
                ins ch = [Graph.source_label (index + 1)]).
Proof.
  intros Hprobe Hfile.
  assert (Hi : (index < length files)%nat) by (by eapply lookup_lt_Some).
  unfold Timestamp.processAudio, Submix.processAudio. rewrite Hprobe.
  eexists _, _. split; [reflexivity|]. split; [reflexivity|].
  cbn [inputs complexFilter]. rewrite add_inputs_eq.
  split; [done|]. split; [done|]. split.
  - replace (index + 1)%nat with (S index) by lia.
    change ((mainAudioPath :: map path files) !! S index) with (map path files !! index).
    by rewrite list_lookup_fmap, Hfile.
  - split.
    + exists (Timestamp.clip_chain mainDuration meta index).
      split; [by apply Timestamp_clip_lookup | done].
    + exists (Submix.trim_chain mainDuration meta index).
      split; [|done]. rewrite Submix_filter_graph_eq.
      rewrite lookup_app_l by (rewrite length_flat_map_pair; lia).
      by destruct (lookup_flat_map_pair (Submix.trim_chain mainDuration meta)
                    (Submix.delay_chain meta) (length files) 0 index Hi) as [H1 _].
Qed.

Lemma clip_pads_match_inputs_witness :
  let a := {| originalname := "a.aac"; path := "uploads/a.aac" |} in
  let b := {| originalname := "b.aac"; path := "uploads/b.aac" |} in
  exists cT,
    Timestamp.processAudio (fun _ => Some 30) "uploads/main.aac" [a; b] [] "public/main.aac"
      = Run cT /\
    inputs cT = ["uploads/main.aac"; "uploads/a.aac"; "uploads/b.aac"] /\
    (exists ch, complexFilter cT !! 1%nat = Some ch /\ ins ch = ["2:a"]).
Proof.
  intros a b.
  destruct (clip_pads_match_inputs (fun _ => Some 30) "uploads/main.aac" [a; b] []
              "public/main.aac" 30 1 b eq_refl eq_refl)
    as (cT & cS & HT & _ & Hin & _ & _ & Hch & _).
  exists cT. split; [exact HT|]. split; [exact Hin | exact Hch].
Defined.

(** ** The download route never touches another file *)


(** ** The upload form *)

Lemma filter_length_all {A : Type} (p : A -> bool) (l : list A) :
  length (List.filter p l) = length l -> List.filter p l = l.
Proof.
  induction l as [|x l IH]; simpl; [done|].
  pose proof (filter_length_le p l) as Hle.
  destruct (p x); simpl; intros H.
  - f_equal. apply IH. lia.
  - lia.
Qed.

Lemma filter_all_forallb {A : Type} (p : A -> bool) (l : list A) :
  List.filter p l = l <-> forallb p l = true.
Proof.
  induction l as [|x l IH]; simpl; [done|].
  pose proof (filter_length_le p l) as Hle.
  destruct (p x); simpl.
  - rewrite <- IH. split; [by intros [= ->] | by intros ->].
  - split; [|done]. intros H. apply (f_equal length) in H. simpl in H. lia.
Qed.

(** X13: A selection of short audios is taken whole or not at all: when every
    chosen file is an AAC file the selection is kept as chosen, in order,
    and the error is cleared; a single other file empties the list and sets
    the error.  The main audio and the other fields are not touched. *)
Theorem short_audios_all_or_nothing (toLowerCase : string -> string)
    (files : list Page.BrowserFile) (st : Page.state) :
  let st' := Page.handleShortAudiosChange toLowerCase files st in
  (forallb (Page.isAacFile toLowerCase) files = true ->
     Page.shortAudios st' = files /\ Page.error st' = "") /\
  (forallb (Page.isAacFile toLowerCase) files = false ->
     Page.shortAudios st' = [] /\
     Page.error st' = "Please select only AAC files for the short audios.") /\
  Page.mainAudio st' = Page.mainAudio st /\
  Page.processing st' = Page.processing st /\
  Page.downloadUrl st' = Page.downloadUrl st.
Proof.
  intros st'. subst st'. unfold Page.handleShortAudiosChange.
  destruct (length (List.filter _ files) =? length files)%nat eqn:E; cbn.
  - apply Nat.eqb_eq, filter_length_all in E. split; [by rewrite E|]. split; [|done].
    apply filter_all_forallb in E. congruence.
  - apply Nat.eqb_neq in E. split; [|by split].
    intros H. apply filter_all_forallb in H. rewrite H in E. done.
Qed.

Lemma short_audios_all_or_nothing_witness :
  let aac := {| Page.type := "audio/aac"; Page.name := "a.aac" |} in
  let mp3 := {| Page.type := "audio/mpeg"; Page.name := "b.mp3" |} in
  Page.shortAudios (Page.handleShortAudiosChange id [aac; aac] Page.initial) = [aac; aac] /\
  Page.shortAudios (Page.handleShortAudiosChange id [aac; mp3] Page.initial) = [].
Proof.
  intros aac mp3. split.
  - by apply (short_audios_all_or_nothing id [aac; aac] Page.initial).
  - by apply (short_audios_all_or_nothing id [aac; mp3] Page.initial).
Defined.

Lemma formData_eq (st : Page.state) :
  Page.formData st
  = ("mainAudio", Page.mainAudio st) ::
    map (fun audio => ("shortAudios", Some audio)) (Page.shortAudios st).
Proof.
  unfold Page.formData, forEach.
  assert (H : forall (l : list Page.BrowserFile) k (acc : list (string * option Page.BrowserFile)),
             forEach_from (fun audio (_ : nat) acc => acc ++ [("shortAudios", Some audio)])
               l k acc = acc ++ map (fun audio => ("shortAudios", Some audio)) l).
  { induction l as [|x l IH]; intros k acc; simpl.
    - by rewrite app_nil_r.
    - rewrite IH. by rewrite <- app_assoc. }
  by rewrite H.
Qed.

Lemma step_keeps_aac (toLowerCase : string -> string) (st : Page.state) (ev : Page.event) :
  (forall f, Page.mainAudio st = Some f -> Page.isAacFile toLowerCase f = true) ->
  forallb (Page.isAacFile toLowerCase) (Page.shortAudios st) = true ->
  (forall f, Page.mainAudio (Page.step toLowerCase st ev) = Some f ->
     Page.isAacFile toLowerCase f = true) /\
  forallb (Page.isAacFile toLowerCase) (Page.shortAudios (Page.step toLowerCase st ev)) = true.
Proof.
  intros Hmain Hshort. destruct ev as [files|files| |reply]; cbn [Page.step].
  - unfold Page.handleMainAudioChange.
    destruct (files !! 0%nat) as [file|]; [|by split].
    destruct (Page.isAacFile toLowerCase file) eqn:E; cbn; [|by split].
    split; [|done]. by intros f [= <-].
  - unfold Page.handleShortAudiosChange.
    destruct (length (List.filter _ files) =? length files)%nat; cbn; [|by split].
    split; [done|]. apply forallb_forall. intros f Hf. by apply filter_In in Hf as [_ Hf].
  - by destruct (Page.submit_disabled st).
  - unfold Page.handleSubmit_end. by destruct reply.
Qed.

Lemma handleShortAudiosChange_shortAudios (toLowerCase : string -> string)
    (files : list Page.BrowserFile) (st : Page.state) :
  Page.shortAudios (Page.handleShortAudiosChange toLowerCase files st)
  = if forallb (Page.isAacFile toLowerCase) files then files else [].
Proof.
  unfold Page.handleShortAudiosChange.
  destruct (length (List.filter _ files) =? length files)%nat eqn:E; cbn.
  - apply Nat.eqb_eq, filter_length_all in E. rewrite E.
    apply filter_all_forallb in E. by rewrite E.
  - apply Nat.eqb_neq in E.
    destruct (forallb (Page.isAacFile toLowerCase) files) eqn:H; [|done].
    apply filter_all_forallb in H. rewrite H in E. done.
Qed.

(** Only a selection of short audios changes the short audios, and only a
    selection of a main audio changes the main audio. *)
Lemma fold_step_keeps (toLowerCase : string -> string) (evs : list Page.event) :
  forall st : Page.state,
    (Forall (fun ev => forall fs, ev <> Page.ShortAudiosChange fs) evs ->
     Page.shortAudios (fold_left (Page.step toLowerCase) evs st) = Page.shortAudios st) /\
    (Forall (fun ev => forall fs, ev <> Page.MainAudioChange fs) evs ->
     Page.mainAudio (fold_left (Page.step toLowerCase) evs st) = Page.mainAudio st).
Proof.
  induction evs as [|ev evs IH]; intros st; [done|]. cbn [fold_left].
  destruct (IH (Page.step toLowerCase st ev)) as [IHs IHm].
  split; intros Hall; inversion Hall as [ | ev0 evs0 Hev Hrest ]; subst.
  - rewrite (IHs Hrest). destruct ev as [files|files| |reply]; cbn [Page.step].
    + unfold Page.handleMainAudioChange.
      destruct (files !! 0%nat) as [f|]; [|done]. by destruct (Page.isAacFile toLowerCase f).
    + by destruct (Hev files).
    + by destruct (Page.submit_disabled st).
    + by destruct reply.
  - rewrite (IHm Hrest). destruct ev as [files|files| |reply]; cbn [Page.step].
    + by destruct (Hev files).
    + unfold Page.handleShortAudiosChange.
      by destruct (length (List.filter _ files) =? length files)%nat.
    + by destruct (Page.submit_disabled st).
    + by destruct reply.
Qed.

(** X14: Whatever the user does, the form only ever holds AAC files; when the
    submit button is enabled the form data [handleSubmit] builds is the main
    audio of the state followed by every short audio of the state, in their
    order, there is at least one of them, and each file is an AAC file; the
    short audios of the state are the files of the last selection of short
    audios, in the order chosen, if all of them are AAC files and none
    otherwise; and the main audio is the first file of the last selection of
    a main audio, if it is an AAC file. *)
Theorem form_only_sends_aac (toLowerCase : string -> string) (events : list Page.event) :
  let st := Page.run toLowerCase events in
  (forall f, Page.mainAudio st = Some f -> Page.isAacFile toLowerCase f = true) /\
  forallb (Page.isAacFile toLowerCase) (Page.shortAudios st) = true /\
  (Page.submit_disabled st = false ->
   exists main,
     Page.mainAudio st = Some main /\
     Page.formData st
     = ("mainAudio", Some main) ::
       map (fun audio => ("shortAudios", Some audio)) (Page.shortAudios st) /\
     Page.shortAudios st <> [] /\
     forallb (Page.isAacFile toLowerCase) (main :: Page.shortAudios st) = true) /\
  (forall before files after,
     events = before ++ Page.ShortAudiosChange files :: after ->
     Forall (fun ev => forall fs, ev <> Page.ShortAudiosChange fs) after ->
     Page.shortAudios st
     = if forallb (Page.isAacFile toLowerCase) files then files else []) /\
  (forall before files after,
     events = before ++ Page.MainAudioChange files :: after ->
     Forall (fun ev => forall fs, ev <> Page.MainAudioChange fs) after ->
     Page.mainAudio st
     = match files !! 0%nat with
       | Some file => if Page.isAacFile toLowerCase file then Some file else None
       | None => None
       end).
Proof.
  intros st.
  assert (Hinv : (forall f, Page.mainAudio st = Some f -> Page.isAacFile toLowerCase f = true) /\
                 forallb (Page.isAacFile toLowerCase) (Page.shortAudios st) = true).
  { subst st. unfold Page.run.
    assert (H : forall evs st0,
               (forall f, Page.mainAudio st0 = Some f -> Page.isAacFile toLowerCase f = true) ->
               forallb (Page.isAacFile toLowerCase) (Page.shortAudios st0) = true ->
               (forall f, Page.mainAudio (fold_left (Page.step toLowerCase) evs st0) = Some f ->
                  Page.isAacFile toLowerCase f = true) /\
               forallb (Page.isAacFile toLowerCase)
                 (Page.shortAudios (fold_left (Page.step toLowerCase) evs st0)) = true).
    { induction evs as [|ev evs IH]; intros st0 Hm Hs; simpl; [by split|].
      destruct (step_keeps_aac toLowerCase st0 ev Hm Hs) as [Hm' Hs']. by apply IH. }
    apply H; [by intros f [=] | done]. }
  destruct Hinv as [Hmain Hshort]. split; [exact Hmain|]. split; [exact Hshort|].
  split; [|split].
  - unfold Page.submit_disabled. intros Hen.
    apply orb_false_iff in Hen as [Hen _]. apply orb_false_iff in Hen as [Hm Hs].
    apply negb_false_iff, bool_decide_eq_true in Hm. destruct Hm as [main Hm].
    exists main. rewrite formData_eq, Hm.
    split; [done|]. split; [done|]. split.
    + intros E. rewrite E in Hs. done.
    + cbn [forallb]. by rewrite (Hmain main Hm), Hshort.
  - intros before files after -> Hafter. subst st. unfold Page.run.
    rewrite fold_left_app. cbn [fold_left Page.step].
    destruct (fold_step_keeps toLowerCase after
                (Page.handleShortAudiosChange toLowerCase files
                   (fold_left (Page.step toLowerCase) before Page.initial))) as [Hkeep _].
    rewrite (Hkeep Hafter). apply handleShortAudiosChange_shortAudios.
  - intros before files after -> Hafter. subst st. unfold Page.run.
    rewrite fold_left_app. cbn [fold_left Page.step].
    destruct (fold_step_keeps toLowerCase after
                (Page.handleMainAudioChange toLowerCase files
                   (fold_left (Page.step toLowerCase) before Page.initial))) as [_ Hkeep].
    rewrite (Hkeep Hafter). unfold Page.handleMainAudioChange.
    destruct (files !! 0%nat) as [file|]; [|done].
    by destruct (Page.isAacFile toLowerCase file).
Qed.

Lemma form_only_sends_aac_witness :
  let aac n := {| Page.type := "audio/aac"; Page.name := n |} in
  let mp3 := {| Page.type := "audio/mpeg"; Page.name := "c.mp3" |} in
  let st := Page.run id [Page.ShortAudiosChange [mp3]; Page.MainAudioChange [aac "main"];
                         Page.ShortAudiosChange [aac "b"; aac "a"]; Page.Submit] in
  Page.formData st
  = [("mainAudio", Some (aac "main")); ("shortAudios", Some (aac "b"));
     ("shortAudios", Some (aac "a"))] /\
  Page.shortAudios st = [aac "b"; aac "a"].
Proof.
  intros aac mp3 st.
  destruct (form_only_sends_aac id
              [Page.ShortAudiosChange [mp3]; Page.MainAudioChange [aac "main"];
               Page.ShortAudiosChange [aac "b"; aac "a"]; Page.Submit])
    as (_ & _ & _ & Hshorts & _).
  split; [reflexivity|].
  apply (Hshorts [Page.ShortAudiosChange [mp3]; Page.MainAudioChange [aac "main"]]
           [aac "b"; aac "a"] [Page.Submit] eq_refl).
  constructor; [discriminate | constructor].
Defined.
